(** * codemirror-textmate: a shallow embedding of the grammar registry, the
      scope classifier, the per-line tokenizer and the rebind queue.

    The development follows the TypeScript sources:
    - [Highlighter.ts]  the static grammar registry and the tokenizer closure,
    - [tmToCm.ts]       the scope classification tree and its memo cache,
    - [index.ts]        [updateCmTmBindings] and the [safeUpdateCM] queue.

    JavaScript [Map] and [Set] iterate in insertion order and the registry
    returns [Array.from] of such sets, so both are modelled as insertion-ordered
    lists rather than as extensional finite maps. *)

From Stdlib Require Import String Ascii List ZArith Bool Lia DecimalString.
Import ListNotations.
Open Scope string_scope.
Set Warnings "-register-all".

(** ** Completions: a call either returns or throws *)

Inductive JsError : Type :=
| TypeError (msg : string)
| Error (msg : string).

Inductive completion (A : Type) : Type :=
| Normal (a : A)
| Throw (e : JsError).
Arguments Normal {A} a.
Arguments Throw {A} e.

(** [a || b] on values where [None] is the only falsy inhabitant. *)
Definition or_else {A : Type} (a b : option A) : option A :=
  match a with
  | Some _ => a
  | None => b
  end.

(** ** Insertion-ordered [Map<string, V>] and [Set<string>] *)

Module JsMap.
Section WithValue.
Context {V : Type}.

Definition t : Type := list (string * V).

Definition empty : t := [].

Fixpoint get (m : t) (k : string) : option V :=
  match m with
  | [] => None
  | (k', v) :: r => if String.eqb k' k then Some v else get r k
  end.

Definition has (m : t) (k : string) : bool :=
  match get m k with
  | Some _ => true
  | None => false
  end.

(** [Map.prototype.set]: an existing key keeps its position. *)
Fixpoint set (m : t) (k : string) (v : V) : t :=
  match m with
  | [] => [(k, v)]
  | (k', v') :: r =>
      if String.eqb k' k then (k', v) :: r else (k', v') :: set r k v
  end.

Fixpoint delete (m : t) (k : string) : t :=
  match m with
  | [] => []
  | (k', v') :: r =>
      if String.eqb k' k then r else (k', v') :: delete r k
  end.

Definition keys (m : t) : list string := map fst m.
End WithValue.
Arguments t V : clear implicits.
End JsMap.

Module JsSet.
Definition t : Type := list string.

Definition empty : t := [].

Fixpoint has (s : t) (x : string) : bool :=
  match s with
  | [] => false
  | y :: r => if String.eqb y x then true else has r x
  end.

(** [Set.prototype.add]: appended at the end unless already present. *)
Fixpoint add (s : t) (x : string) : t :=
  match s with
  | [] => [x]
  | y :: r => if String.eqb y x then y :: r else y :: add r x
  end.

Fixpoint delete (s : t) (x : string) : t :=
  match s with
  | [] => []
  | y :: r => if String.eqb y x then r else y :: delete r x
  end.

(** [Array.from(set)] *)
Definition to_array (s : t) : list string := s.
End JsSet.

(** ** tmToCm.ts: the scope classifier *)

Module TmToCm.

Inductive CmToken : Type :=
| Atom | Attribute | Bracket | Builtin | Comment | Def | Error_ | Header
| HR | Keyword | Link | Meta | Number | Operator | Property | Qualifier
| Quote | String_ | String2 | Tag | Type_ | Variable_ | Variable2 | Variable3.

(** The string value of each enum member. *)
Definition CmToken_value (t : CmToken) : string :=
  match t with
  | Atom => "atom" | Attribute => "attribute" | Bracket => "bracket"
  | Builtin => "builtin" | Comment => "comment" | Def => "def"
  | Error_ => "error" | Header => "header" | HR => "hr"
  | Keyword => "keyword" | Link => "link" | Meta => "meta"
  | Number => "number" | Operator => "operator" | Property => "property"
  | Qualifier => "qualifier" | Quote => "quote" | String_ => "string"
  | String2 => "string-2" | Tag => "tag" | Type_ => "type"
  | Variable_ => "variable" | Variable2 => "variable-2"
  | Variable3 => "variable-3"
  end.

(** A node of the [tmToCm] object literal.  [Obj d kids] is an object with
    optional [$] entry [d] and the remaining own properties [kids];
    [Str t] is a property whose value is the bare enum string (the source
    has one: [keyword.other.special-method]). *)
Inductive Tree : Type :=
| Obj (dollar : option CmToken) (kids : list (string * Tree))
| Str (t : CmToken).

Definition leaf (t : CmToken) : Tree := Obj (Some t) [].

Definition tmToCm : Tree :=
  Obj None
    [ ("comment", leaf Comment);
      ("constant",
        Obj (Some Def)
          [ ("character", Obj None [ ("escape", leaf String2) ]);
            ("language", leaf Atom);
            ("numeric", leaf Number);
            ("other",
              Obj None
                [ ("email", Obj None [ ("link", leaf Link) ]);
                  ("symbol", leaf Def) ]) ]);
      ("entity",
        Obj None
          [ ("name",
              Obj None
                [ ("class", leaf Def);
                  ("function", leaf Def);
                  ("tag", leaf Tag);
                  ("type", Obj (Some Type_) [ ("class", leaf Variable_) ]) ]);
            ("other",
              Obj None
                [ ("attribute-name", leaf Attribute);
                  ("inherited-class", leaf Def) ]);
            ("support", Obj None [ ("function", leaf Def) ]) ]);
      ("keyword",
        Obj (Some Keyword)
          [ ("operator", leaf Operator);
            ("other", Obj None [ ("special-method", Str Def) ]) ]);
      ("punctuation",
        Obj (Some Operator)
          [ ("definition",
              Obj None
                [ ("comment", leaf Comment);
                  ("tag", leaf Bracket) ]) ]);
      ("storage", leaf Keyword);
      ("string", Obj (Some String_) [ ("regexp", leaf String2) ]);
      ("support",
        Obj None
          [ ("class", leaf Def);
            ("constant", leaf Variable2);
            ("function", leaf Def);
            ("type", leaf Type_);
            ("variable",
              Obj (Some Variable2) [ ("property", leaf Property) ]) ]);
      ("variable",
        Obj (Some Def)
          [ ("language", leaf Variable3);
            ("other",
              Obj None
                [ ("object",
                    Obj (Some Variable_) [ ("property", leaf Property) ]);
                  ("property", leaf Property) ]);
            ("parameter", leaf Def) ]) ].

(** [tree[first]] as far as [walk] can observe it.  A property read that
    yields a value without any reachable [$] (the [$] string itself, an
    index into an enum string, an inherited [Object.prototype] member) makes
    [walk] answer [null] exactly as a missing property does, so such reads
    are folded into [None]. *)
Definition child (tree : Tree) (first : string) : option Tree :=
  match tree with
  | Obj _ kids => JsMap.get kids first
  | Str _ => None
  end.

(** [node.$] *)
Definition dollar_of (node : Tree) : option CmToken :=
  match node with
  | Obj d _ => d
  | Str _ => None
  end.

(** [walk]: [scopeSegments.shift()] on an empty array is [undefined], and
    no tree has a property of that name. *)
Fixpoint walk (scopeSegments : list string) (tree : Tree) : option CmToken :=
  match scopeSegments with
  | [] => None
  | first :: rest =>
      match child tree first with
      | Some node => or_else (walk rest node) (or_else (dollar_of node) None)
      | None => None
      end
  end.

(** [scope.split(/\./)] *)
Fixpoint split_dot (s : string) : list string :=
  match s with
  | EmptyString => [""]
  | String c r =>
      if Ascii.eqb c "."%char then "" :: split_dot r
      else
        match split_dot r with
        | h :: t => String c h :: t
        | [] => [String c ""]
        end
  end.

(** *** The memo cache: lru-cache with [max: 2000]

    Entries are kept most recently used first. *)
Definition LRU : Type := list (string * option CmToken).

Definition max : nat := 2000.

Definition cache_empty : LRU := [].

(** [cache.has]: does not touch recency. *)
Definition cache_has (c : LRU) (k : string) : bool := JsMap.has c k.

(** eviction of the least recently used entries beyond [max] *)
Definition trim (c : LRU) : LRU := firstn max c.

(** [cache.set]: the entry becomes the most recent one. *)
Definition cache_set (c : LRU) (k : string) (v : option CmToken) : LRU :=
  trim ((k, v) :: JsMap.delete c k).

(** [cache.get]: a hit becomes the most recent entry; a miss is
    [undefined]. *)
Definition cache_get (c : LRU) (k : string)
  : option (option CmToken) * LRU :=
  match JsMap.get c k with
  | Some v => (Some v, (k, v) :: JsMap.delete c k)
  | None => (None, c)
  end.

(** [tmScopeToCmToken(scope)] for a string argument.  [None] is the
    falsy answer ([null]; [undefined] could only come from a miss right
    after the store). *)
Definition tmScopeToCmToken_str (scope : string) (cache : LRU)
  : option CmToken * LRU :=
  let cache1 :=
    if cache_has cache scope then cache
    else cache_set cache scope (walk (split_dot scope) tmToCm) in
  match cache_get cache1 scope with
  | (Some v, cache2) => (v, cache2)
  | (None, cache2) => (None, cache2)
  end.

(** [tmScopeToCmToken] as the untyped call sees it: the argument may be
    [undefined] (here [None]), and then [scope.split] throws. *)
Definition tmScopeToCmToken (scope : option string) (cache : LRU)
  : completion (option CmToken) * LRU :=
  match scope with
  | None =>
      (Throw (TypeError "Cannot read property 'split' of undefined"), cache)
  | Some s =>
      let '(v, cache') := tmScopeToCmToken_str s cache in (Normal v, cache')
  end.


End TmToCm.

(** ** Highlighter.ts *)

(** Values of unknown type reaching an untyped entry point. *)
Inductive JsValue : Type :=
| JUndefined
| JNull
| JBool (b : bool)
| JNumber (z : Z)
| JString (s : string)
| JArray (items : list JsValue).

(** [!v] is [negb (truthy v)]. *)
Definition truthy (v : JsValue) : bool :=
  match v with
  | JUndefined | JNull => false
  | JBool b => b
  | JNumber z => negb (Z.eqb z 0)
  | JString s => negb (String.eqb s "")
  | JArray _ => true
  end.

(** [Array.isArray(v) && v.every((scope) => typeof scope === 'string')];
    on success the strings themselves. *)
Fixpoint every_string (items : list JsValue) : option (list string) :=
  match items with
  | [] => Some []
  | JString s :: r =>
      match every_string r with
      | Some l => Some (s :: l)
      | None => None
      end
  | _ :: _ => None
  end.

Definition string_array (v : JsValue) : option (list string) :=
  match v with
  | JArray items => every_string items
  | _ => None
  end.

(** [arr.indexOf(x) > -1] *)
Definition includes (arr : list string) (x : string) : bool :=
  existsb (String.eqb x) arr.

(** A settled promise. *)
Inductive settled (A : Type) : Type :=
| Fulfilled (a : A)
| Rejected (e : JsError).
Arguments Fulfilled {A} a.
Arguments Rejected {A} e.

(** How a promise ends up: settled, or left pending for good. *)
Inductive Outcome (A : Type) : Type :=
| Settles (s : settled A)
| NeverSettles.
Arguments Settles {A} s.
Arguments NeverSettles {A}.

(** [const x = await p; return k(x)] inside an async function: the
    function's own promise fulfils with [k x] when [p] fulfils, rejects with
    [p]'s error when [p] rejects, and stays pending while [p] does. *)
Definition await_then {A B : Type} (p : Outcome A) (k : A -> B) : Outcome B :=
  match p with
  | Settles (Fulfilled x) => Settles (Fulfilled (k x))
  | Settles (Rejected e) => Settles (Rejected e)
  | NeverSettles => NeverSettles
  end.

(** The points at which an async function yields. *)
Inductive Suspension : Type :=
| AwaitIdle (ms : Z)
| AwaitLoad (languageId : string).

(** Rule stack of the grammar engine; opaque to this code base. *)
Definition StackElement : Type := list nat.

Record IToken : Type := mkToken {
  startIndex : nat;
  endIndex : nat;
  scopes : list string
}.

Record ITokenizeLineResult : Type := mkLineResult {
  tokens : list IToken;
  lr_ruleStack : StackElement
}.

(** A compiled grammar of the engine: only [tokenizeLine] is used. *)
Record IGrammar : Type := mkGrammar {
  tokenizeLine : string -> StackElement -> ITokenizeLineResult
}.

(** A grammar source; the document itself is opaque. *)
Definition IRawGrammar : Type := string.

Inductive IRawGrammarSource : Type :=
| RawGrammar (g : IRawGrammar)
| PromiseOf (g : IRawGrammar)
| Producer (f : string -> IRawGrammar) (async : bool).

(** The engine instance built by [initRegistry]. *)
Inductive RegistryInstance : Type := NewRegistry.

Inductive LoadPriority : Type := now | asap | defer.

Module Highlighter.

(** The static members of the class. *)
Record Statics : Type := mkStatics {
  scopeNameToInjections : JsMap.t JsSet.t;
  scopeNameToRawGrammars : JsMap.t IRawGrammarSource;
  scopeNameToLanguageId : JsMap.t string;
  languageIdToScopeName : JsMap.t string;
  registry : option RegistryInstance
}.

Definition initial : Statics :=
  mkStatics JsMap.empty JsMap.empty JsMap.empty JsMap.empty None.

Definition with_injections (st : Statics) (inj : JsMap.t JsSet.t) : Statics :=
  mkStatics inj (scopeNameToRawGrammars st) (scopeNameToLanguageId st)
    (languageIdToScopeName st) (registry st).

Definition with_registry (st : Statics) (r : option RegistryInstance)
  : Statics :=
  mkStatics (scopeNameToInjections st) (scopeNameToRawGrammars st)
    (scopeNameToLanguageId st) (languageIdToScopeName st) r.

Definition addGrammar (scopeName : string) (grammar : IRawGrammarSource)
    (st : Statics) : Statics :=
  mkStatics (scopeNameToInjections st)
    (JsMap.set (scopeNameToRawGrammars st) scopeName grammar)
    (scopeNameToLanguageId st) (languageIdToScopeName st) (registry st).

Definition not_string_array : JsError :=
  TypeError
    "Second argument to 'linkInjections' must be an array of strings (scope names)".

(** [affectedLanguages.add(scopeNameToLanguageId.get(scope))] under the
    guard [scopeNameToLanguageId.has(scope)]. *)
Definition note_affected (st : Statics) (affected : JsSet.t) (scope : string)
  : JsSet.t :=
  match JsMap.get (scopeNameToLanguageId st) scope with
  | Some languageId => JsSet.add affected languageId
  | None => affected
  end.

(** One turn of the [forEach] in [linkInjections]. *)
Definition link_one (st : Statics) (scopeName : string)
    (acc : JsMap.t JsSet.t * JsSet.t) (scope : string)
  : JsMap.t JsSet.t * JsSet.t :=
  let '(inj, affected) := acc in
  let inj' :=
    match JsMap.get inj scope with
    | Some hosted => JsMap.set inj scope (JsSet.add hosted scopeName)
    | None => JsMap.set inj scope (JsSet.add JsSet.empty scopeName)
    end in
  (inj', note_affected st affected scope).

Definition linkInjections (scopeName : string) (injectInto : JsValue)
    (st : Statics) : completion (list string) * Statics :=
  match string_array injectInto with
  | None => (Throw not_string_array, st)
  | Some hosts =>
      let '(inj, affectedLanguages) :=
        fold_left (link_one st scopeName) hosts
          (scopeNameToInjections st, JsSet.empty) in
      (Normal (JsSet.to_array affectedLanguages),
       with_registry (with_injections st inj) None)
  end.

(** The [forEach] over [scopeNameToInjections] in [unlinkInjections];
    [selected] is the host filter of the branch taken. *)
Fixpoint unlink_each (st : Statics) (scopeName : string)
    (selected : string -> bool) (entries : JsMap.t JsSet.t)
    (affected : JsSet.t) : JsMap.t JsSet.t * JsSet.t :=
  match entries with
  | [] => ([], affected)
  | (hostScopeName, injectionList) :: r =>
      if selected hostScopeName && JsSet.has injectionList scopeName then
        let '(r', affected') :=
          unlink_each st scopeName selected r
            (note_affected st affected hostScopeName) in
        ((hostScopeName, JsSet.delete injectionList scopeName) :: r',
         affected')
      else
        let '(r', affected') :=
          unlink_each st scopeName selected r affected in
        ((hostScopeName, injectionList) :: r', affected')
  end.

(** The result is [None] for the bare [return] (i.e. [undefined]). *)
Definition unlinkInjections (scopeName : string) (injections : JsValue)
    (st : Statics) : completion (option (list string)) * Statics :=
  if negb (JsMap.has (scopeNameToInjections st) scopeName) then
    (Normal None, st)
  else if negb (truthy injections) then
    let '(inj, affectedLanguages) :=
      unlink_each st scopeName (fun _ => true)
        (scopeNameToInjections st) JsSet.empty in
    (Normal (Some (JsSet.to_array affectedLanguages)),
     with_registry (with_injections st inj) None)
  else
    match string_array injections with
    | None => (Throw not_string_array, st)
    | Some hosts =>
        let '(inj, affectedLanguages) :=
          unlink_each st scopeName (includes hosts)
            (scopeNameToInjections st) JsSet.empty in
        (Normal (Some (JsSet.to_array affectedLanguages)),
         with_registry (with_injections st inj) None)
    end.

(** [getInjections] of the engine callbacks: [None] is [undefined]. *)
Definition getInjections (st : Statics) (scopeName : string)
  : option (list string) :=
  match JsMap.get (scopeNameToInjections st) scopeName with
  | Some hosted => Some (JsSet.to_array hosted)
  | None => None
  end.

Definition hasLanguageRegistered (languageId : string) (st : Statics)
  : bool :=
  JsMap.has (languageIdToScopeName st) languageId.

Section Engine.
(** [registry.loadGrammar(scopeName)] of the external engine: how the
    promise it returns ends up -- fulfilled, rejected, or never settled --
    given the registry maps it reads through its two callbacks.  A grammar
    may come back absent.  The in-place
    normalisation of grammar sources done by the [getGrammarDefinition]
    callback rewrites values of [scopeNameToRawGrammars] only and is left
    to the engine. *)
Variable loadGrammar : Statics -> string -> Outcome (option IGrammar).

Definition initRegistry (st : Statics) : Statics :=
  with_registry st (Some NewRegistry).

(** [None] is the [null] answer; otherwise the engine's promise. *)
Definition loadLanguage (languageId : string) (st : Statics)
  : option (Outcome (option IGrammar)) * Statics :=
  match JsMap.get (languageIdToScopeName st) languageId with
  | None => (None, st)
  | Some scopeName =>
      if String.eqb scopeName ""
         || negb (JsMap.has (scopeNameToRawGrammars st) scopeName)
      then (None, st)
      else
        let st' :=
          match registry st with
          | Some _ => st
          | None => initRegistry st
          end in
        (Some (loadGrammar st' scopeName), st')
  end.

(** [await Highlighter.loadLanguage(languageId)]: awaiting [null] yields
    [null]. *)
Definition await_load (p : option (Outcome (option IGrammar)))
  : Outcome (option IGrammar) :=
  match p with
  | None => Settles (Fulfilled None)
  | Some s => s
  end.

Definition no_grammar (scopeName : string) : JsError :=
  Error ("'" ++ scopeName ++
         "' doesn't have a grammar registered. Use addGrammar to register grammar for itself and it's dependencies").

Definition already_bound (languageId bound : string) : JsError :=
  Error ("Language with ID '" ++ languageId ++ "' is already bound to '"
         ++ bound ++ "'. Overwrite not allowed").

(** The async function run as far as it gets with no other registry call
    interleaved at its suspension points: how the returned promise ends
    up, the statics afterwards, and the suspensions reached.
    [requestIdle()] uses its default of 10000 ms and always resolves. *)
Definition activateLanguage (scopeName languageId : string)
    (load : LoadPriority) (st : Statics)
  : Outcome bool * Statics * list Suspension :=
  if negb (JsMap.has (scopeNameToRawGrammars st) scopeName) then
    (Settles (Rejected (no_grammar scopeName)), st, [])
  else
    match JsMap.get (languageIdToScopeName st) languageId with
    | Some bound =>
        (Settles (Rejected (already_bound languageId bound)), st, [])
    | None =>
        let st1 :=
          mkStatics (scopeNameToInjections st) (scopeNameToRawGrammars st)
            (JsMap.set (scopeNameToLanguageId st) scopeName languageId)
            (JsMap.set (languageIdToScopeName st) languageId scopeName)
            (registry st) in
        match load with
        | now =>
            let '(p, st2) := loadLanguage languageId st1 in
            (await_then (await_load p) (fun _ => true), st2,
             [AwaitLoad languageId])
        | asap =>
            let '(p, st2) := loadLanguage languageId st1 in
            (await_then (await_load p) (fun _ => true), st2,
             [AwaitIdle 10000%Z; AwaitLoad languageId])
        | defer => (Settles (Fulfilled false), st1, [])
        end
    end.
End Engine.

(** *** The [getGrammarDefinition] callback handed to the engine *)

Record GrammarDefinition : Type := mkDefinition {
  content : IRawGrammar;
  format : string
}.

(** [dependentScope] may be missing; the message mentions it when it is
    truthy. *)
Definition grammar_not_found (scopeName : string)
    (dependentScope : option string) : JsError :=
  Error ("Grammar for scope '" ++ scopeName ++ "' not found."
         ++ match dependentScope with
            | Some d =>
                if String.eqb d "" then ""
                else " It is a dependency of " ++ d ++ ". "
            | None => ""
            end
         ++ " Use addGrammar to register one.").

Definition with_rawGrammars (st : Statics)
    (raw : JsMap.t IRawGrammarSource) : Statics :=
  mkStatics (scopeNameToInjections st) raw (scopeNameToLanguageId st)
    (languageIdToScopeName st) (registry st).

(** The async callback run to completion with nothing interleaved at its
    [await]: how its promise settles, the statics afterwards, and the scope
    names the stored producers were called with.  A producer is a function
    ([typeof grammar === 'function']); what it returns is stored in its
    place, and so is what a promise resolves to.  Grammar documents are
    objects, so the final [null] is only there for a value that is neither. *)
Definition getGrammarDefinition (scopeName : string)
    (dependentScope : option string) (st : Statics)
  : settled (option GrammarDefinition) * Statics * list string :=
  match JsMap.get (scopeNameToRawGrammars st) scopeName with
  | None => (Rejected (grammar_not_found scopeName dependentScope), st, [])
  | Some grammar =>
      let '(grammar1, st1, called) :=
        match grammar with
        | Producer f async =>
            let made :=
              if async then PromiseOf (f scopeName)
              else RawGrammar (f scopeName) in
            (made,
             with_rawGrammars st
               (JsMap.set (scopeNameToRawGrammars st) scopeName made),
             [scopeName])
        | _ => (grammar, st, [])
        end in
      let '(grammar2, st2) :=
        match grammar1 with
        | PromiseOf g =>
            (RawGrammar g,
             with_rawGrammars st1
               (JsMap.set (scopeNameToRawGrammars st1) scopeName
                  (RawGrammar g)))
        | _ => (grammar1, st1)
        end in
      match grammar2 with
      | RawGrammar g => (Fulfilled (Some (mkDefinition g "json")), st2, called)
      | _ => (Fulfilled None, st2, called)
      end
  end.

(** *** Instance side: themes, the stream, the tokenizer closure *)

(** A rule of the theme engine; [foreground] is a colour index and
    [fontStyle] the engine's style flag. *)
Record ThemeTrieElementRule : Type := mkRule {
  fontStyle : Z;
  foreground : Z
}.

(** [Theme.match] of the external theme engine.  Its answer always holds the
    matcher's main rule, so it is a head with a possibly empty rest. *)
Record Theme : Type := mkTheme {
  theme_match : string -> ThemeTrieElementRule * list ThemeTrieElementRule
}.

(** [this.theme.match(x)] for an [x] that may be [undefined]: the engine
    calls a string method on its argument. *)
Definition theme_match_js (th : Theme) (scope : option string)
  : completion (ThemeTrieElementRule * list ThemeTrieElementRule) :=
  match scope with
  | None => Throw (TypeError "Cannot read property 'indexOf' of undefined")
  | Some s => Normal (theme_match th s)
  end.

(** A [Highlighter] object, as far as tokenizing goes. *)
Record t : Type := mk { theme : option Theme }.

Record StringStream : Type := mkStream {
  pos : nat;
  string_ : string
}.

Definition skipToEnd (stream : StringStream) : StringStream :=
  mkStream (String.length (string_ stream)) (string_ stream).

(** [stream.eatWhile(() => stream.pos < endIndex)]: [eat] stops at the end
    of the string before it asks the predicate.  The loop runs at most once
    per character. *)
Fixpoint eat_loop (turns : nat) (endIndex : nat) (stream : StringStream)
  : StringStream :=
  match turns with
  | O => stream
  | S turns' =>
      if (pos stream <? String.length (string_ stream))%nat
         && (pos stream <? endIndex)%nat
      then eat_loop turns' endIndex
             (mkStream (S (pos stream)) (string_ stream))
      else stream
  end.

Definition eatWhile_before (endIndex : nat) (stream : StringStream)
  : StringStream :=
  eat_loop (String.length (string_ stream)) endIndex stream.

(** [tokensCache] is absent from a state made by [startState] or
    [copyState]. *)
Record IHighlighterState : Type := mkState {
  ruleStack : StackElement;
  tokensCache : option (list IToken)
}.

(** [arr[i]]: [undefined] outside the array. *)
Definition js_index {A : Type} (arr : list A) (i : Z) : option A :=
  if (i <? 0)%Z then None else nth_error arr (Z.to_nat i).

Definition is_null {A : Type} (v : option A) : bool :=
  match v with
  | Some _ => false
  | None => true
  end.

(** The do-while of the private [tmScopeToCmToken].  Besides the result
    and the classifier cache it reports the indices read, in order.
    [None] only if [fuel] turns did not finish the loop. *)
Fixpoint tmScopeToCmToken_loop (fuel : nat) (scopes : list string) (i : Z)
    (cache : TmToCm.LRU)
  : option (completion (option TmToCm.CmToken) * TmToCm.LRU * list Z) :=
  match fuel with
  | O => None
  | S fuel' =>
      let read := i in
      let i := (i - 1)%Z in
      match TmToCm.tmScopeToCmToken (js_index scopes read) cache with
      | (Throw e, cache') => Some (Throw e, cache', [read])
      | (Normal cmToken, cache') =>
          if is_null cmToken && (0 <=? i)%Z then
            match tmScopeToCmToken_loop fuel' scopes i cache' with
            | Some (r, cache'', reads) => Some (r, cache'', read :: reads)
            | None => None
            end
          else Some (Normal cmToken, cache', [read])
      end
  end.

Definition tmScopeToCmToken (scopes : list string) (cache : TmToCm.LRU)
  : option (completion (option TmToCm.CmToken) * TmToCm.LRU * list Z) :=
  tmScopeToCmToken_loop (S (length scopes)) scopes
    (Z.of_nat (length scopes) - 1)%Z cache.

(** Template-literal rendering of an integral number. *)
Definition number_toString (z : Z) : string :=
  NilZero.string_of_int (Z.to_int z).

(** The class name built inside the [foreground > 0] branch. *)
Definition theme_class (rule : ThemeTrieElementRule) : string :=
  let cmToken := "tm-" ++ number_toString (foreground rule) in
  if (fontStyle rule =? 0)%Z then cmToken
  else if (fontStyle rule =? 1)%Z then cmToken ++ " em"
  else if (fontStyle rule =? 2)%Z then cmToken ++ " strong"
  else cmToken.

(** The do-while of [tmScopeToTmThemeToken], with the indices read. *)
Fixpoint tmScopeToTmThemeToken_loop (th : Theme) (fuel : nat)
    (scopes : list string) (i : Z) (cmToken : option string)
  : option (completion (option string) * list Z) :=
  match fuel with
  | O => None
  | S fuel' =>
      let read := i in
      let i := (i - 1)%Z in
      match theme_match_js th (js_index scopes read) with
      | Throw e => Some (Throw e, [read])
      | Normal (rule, _) =>
          let cmToken :=
            if (0 <? foreground rule)%Z then Some (theme_class rule)
            else cmToken in
          if is_null cmToken && (0 <=? i)%Z then
            match tmScopeToTmThemeToken_loop th fuel' scopes i cmToken with
            | Some (r, reads) => Some (r, read :: reads)
            | None => None
            end
          else Some (Normal cmToken, [read])
      end
  end.

Definition tmScopeToTmThemeToken (th : Theme) (scopes : list string)
  : option (completion (option string) * list Z) :=
  tmScopeToTmThemeToken_loop th (S (length scopes)) scopes
    (Z.of_nat (length scopes) - 1)%Z None.

(** What one call of the closure leaves behind. *)
Record TokenCall : Type := mkCall {
  returned : completion (option string);
  stream_after : StringStream;
  state_after : IHighlighterState;
  cache_after_call : TmToCm.LRU
}.

(** [this.theme ? this.tmScopeToTmThemeToken(scopes)
                : this.tmScopeToCmToken(scopes)] *)
Definition classify_scopes (self : t) (scopes : list string)
    (cache : TmToCm.LRU)
  : option (completion (option string) * TmToCm.LRU) :=
  match theme self with
  | Some th =>
      match tmScopeToTmThemeToken th scopes with
      | Some (r, _) => Some (r, cache)
      | None => None
      end
  | None =>
      match tmScopeToCmToken scopes cache with
      | Some (Normal v, cache', _) =>
          Some (Normal (option_map TmToCm.CmToken_value v), cache')
      | Some (Throw e, cache', _) => Some (Throw e, cache')
      | None => None
      end
  end.

(** The closure returned by [getTokenizer], applied to a stream and a
    state.  [grammar] is what [await Highlighter.loadLanguage(languageId)]
    produced ([None] for [null]).  The outer [option] is [None] only if a
    classification loop ran out of fuel. *)
Definition tokenizer (self : t) (grammar : option IGrammar)
    (stream : StringStream) (state : IHighlighterState)
    (cache : TmToCm.LRU) : option TokenCall :=
  let tokenized :=
    if (pos stream =? 0)%nat then
      match grammar with
      | None =>
          Throw (TypeError "Cannot read property 'tokenizeLine' of null")
      | Some g =>
          let r := tokenizeLine g (string_ stream) (ruleStack state) in
          Normal (mkState (lr_ruleStack r) (Some (tokens r)))
      end
    else Normal state in
  match tokenized with
  | Throw e => Some (mkCall (Throw e) stream state cache)
  | Normal state1 =>
      match tokensCache state1 with
      | None =>
          Some (mkCall
                  (Throw (TypeError "Cannot read property 'shift' of undefined"))
                  stream state1 cache)
      | Some [] =>
          Some (mkCall (Normal None) (skipToEnd stream) state1 cache)
      | Some (nextToken :: rest) =>
          let state2 := mkState (ruleStack state1) (Some rest) in
          let stream2 := eatWhile_before (endIndex nextToken) stream in
          match classify_scopes self (scopes nextToken) cache with
          | Some (r, cache') => Some (mkCall r stream2 state2 cache')
          | None => None
          end
      end
  end.

Section GetTokenizer.
Variable loadGrammar : Statics -> string -> Outcome (option IGrammar).

(** [getTokenizer]: how its promise ends up; the closure is [tokenizer]
    over the loaded grammar. *)
Definition getTokenizer (self : t) (languageId : string) (st : Statics)
  : Outcome (StringStream -> IHighlighterState -> TmToCm.LRU ->
             option TokenCall) * Statics :=
  let '(p, st') := loadLanguage loadGrammar languageId st in
  (await_then (await_load p) (tokenizer self), st').
End GetTokenizer.

End Highlighter.

(** ** tmToCm.ts: the stylesheet of a theme *)

Module ThemeCss.

(** The [settings] object of a theme rule, as far as it is read here. *)
Record RuleSettings : Type := mkSettings {
  background : option string;
  caret : option string;
  foreground : option string;
  lineHighlight : option string;
  selection : option string
}.

(** A rule's [scope]: missing, a string, or an array of strings. *)
Inductive RuleScope : Type :=
| NoScope
| ScopeString (s : string)
| ScopeArray (l : list string).

Record RawRule : Type := mkRawRule {
  scope : RuleScope;
  settings_of : option RuleSettings
}.

Record GutterSettings : Type := mkGutter {
  gutter_background : option string;
  divider : option string;
  gutter_foreground : option string;
  lineActiveBackground : option string;
  lineActiveForeground : option string
}.

Record ITextmateThemePlus : Type := mkRawTheme {
  name : string;
  settings : list RawRule;
  gutterSettings : option GutterSettings
}.

(** Truthiness of a property holding a string or nothing. *)
Definition present (s : option string) : bool :=
  match s with
  | Some v => negb (String.eqb v "")
  | None => false
  end.

(** [${s}] for such a property. *)
Definition shown (s : option string) : string :=
  match s with
  | Some v => v
  | None => "undefined"
  end.

Definition tab : string := String (Ascii.ascii_of_nat 9) "".
Definition newline : string := String (Ascii.ascii_of_nat 10) "".

(** [!rule.scope] *)
Definition scopeless (rule : RawRule) : bool :=
  match scope rule with
  | NoScope => true
  | ScopeString s => String.eqb s ""
  | ScopeArray _ => false
  end.

(** The categories with the scope each is resolved through ([None] where
    the source has [null]), in the order of the object literal. *)
Definition categories : list (TmToCm.CmToken * option string) :=
  [ (TmToCm.Atom, Some "constant.language");
    (TmToCm.Attribute, Some "entity.other.attribute-name");
    (TmToCm.Bracket, Some "punctuation.definition.tag");
    (TmToCm.Builtin, Some "support.function");
    (TmToCm.Comment, Some "comment");
    (TmToCm.Def, Some "entity.name.function");
    (TmToCm.Error_, None);
    (TmToCm.Header, None);
    (TmToCm.HR, None);
    (TmToCm.Keyword, Some "keyword");
    (TmToCm.Link, None);
    (TmToCm.Meta, Some "meta");
    (TmToCm.Number, Some "constant.numeric");
    (TmToCm.Operator, Some "keyword.operator");
    (TmToCm.Property, Some "variable.other.property");
    (TmToCm.Qualifier, None);
    (TmToCm.Quote, None);
    (TmToCm.String_, Some "string");
    (TmToCm.String2, Some "string.regexp");
    (TmToCm.Tag, Some "entity.name.tag");
    (TmToCm.Type_, Some "storage.type");
    (TmToCm.Variable_, Some "variable.other.object");
    (TmToCm.Variable2, Some "support.class.builtin");
    (TmToCm.Variable3, None) ].

(** [if (value) { lines.push(line) }] *)
Definition pushed_if (value : option string) (line : string) : list string :=
  if present value then [line] else [].

(** The lines pushed for the general settings. *)
Definition general_lines (prefix : string) (g : RuleSettings) : list string :=
  List.concat
    [ [prefix ++ ".CodeMirror {"];
      pushed_if (background g)
        (tab ++ "background: " ++ shown (background g) ++ ";");
      pushed_if (foreground g)
        (tab ++ "color: " ++ shown (foreground g) ++ ";");
      ["}"];
      pushed_if (caret g)
        (prefix ++ " .CodeMirror-cursor { border-left-color: "
         ++ shown (caret g) ++ "; }");
      pushed_if (lineHighlight g)
        (prefix ++ " .CodeMirror-activeline-background { background: "
         ++ shown (lineHighlight g) ++ "; }");
      pushed_if (selection g)
        (prefix ++ " .CodeMirror-selected { background: "
         ++ shown (selection g) ++ "; }") ].

(** The lines pushed for the gutter settings. *)
Definition gutter_lines (prefix : string) (g : GutterSettings) : list string :=
  List.concat
    [ [prefix ++ " .CodeMirror-gutters {"];
      pushed_if (gutter_background g)
        (tab ++ "background: " ++ shown (gutter_background g) ++ ";");
      pushed_if (divider g)
        (tab ++ "border-right-color: " ++ shown (divider g) ++ ";");
      ["}"];
      pushed_if (gutter_foreground g)
        (prefix ++ " .CodeMirror-linenumber { color: "
         ++ shown (gutter_foreground g) ++ "; }");
      pushed_if (lineActiveBackground g)
        (prefix
         ++ " .CodeMirror-activeline .CodeMirror-activeline-gutter { background: "
         ++ shown (lineActiveBackground g) ++ "; }");
      pushed_if (lineActiveForeground g)
        (prefix
         ++ " .CodeMirror-activeline .CodeMirror-linenumber { color: "
         ++ shown (lineActiveForeground g) ++ "; }") ].

(** The colour table of the theme engine ([theme.getColorMap()]); [None] is
    an empty slot of the array, as the engine leaves at index 0. *)
Definition ColorMap : Type := list (option string).

(** [colorMap[colorId]] inside a template literal. *)
Definition color_at (colorMap : ColorMap) (colorId : Z) : string :=
  match Highlighter.js_index colorMap colorId with
  | Some (Some color) => color
  | _ => "undefined"
  end.

(** The [for ... in] over the categories: a line for each whose colour id
    is truthy. *)
Definition category_lines (prefix : string) (theme : Highlighter.Theme)
    (colorMap : ColorMap) : list string :=
  flat_map
    (fun entry : TmToCm.CmToken * option string =>
       match snd entry with
       | Some representative =>
           let colorId :=
             Highlighter.foreground
               (fst (Highlighter.theme_match theme representative)) in
           if (colorId =? 0)%Z then []
           else [prefix ++ " .cm-" ++ TmToCm.CmToken_value (fst entry)
                 ++ " { color: " ++ color_at colorMap colorId ++ " }"]
       | None => []
       end)
    categories.

(** [colorMap.map((color, i) => ...)] spread into [concat] and joined: an
    empty slot is skipped by [map], arrives as [undefined] and is joined as
    the empty string. *)
Fixpoint table_lines (prefix : string) (i : nat) (colorMap : ColorMap)
  : list string :=
  match colorMap with
  | [] => []
  | Some color :: r =>
      (prefix ++ " .cm-tm-" ++ Highlighter.number_toString (Z.of_nat i)
       ++ " { color: " ++ color ++ " }")
      :: table_lines prefix (S i) r
  | None :: r => "" :: table_lines prefix (S i) r
  end.

(** The lines of [cssTextFromTmTheme(rawTheme)] before they are joined;
    [theme] and [colorMap] are what the engine makes of [rawTheme]. *)
Definition cssLines (rawTheme : ITextmateThemePlus)
    (theme : Highlighter.Theme) (colorMap : ColorMap) : list string :=
  let prefix := ".cm-s-" ++ name rawTheme in
  let generalSettings :=
    match find scopeless (settings rawTheme) with
    | Some rule => settings_of rule
    | None => None
    end in
  List.concat
    [ match generalSettings with
      | Some g => general_lines prefix g
      | None => []
      end;
      match gutterSettings rawTheme with
      | Some g => gutter_lines prefix g
      | None => []
      end;
      category_lines prefix theme colorMap;
      table_lines prefix 0 colorMap ].

Definition cssTextFromTmTheme (rawTheme : ITextmateThemePlus)
    (theme : Highlighter.Theme) (colorMap : ColorMap) : string :=
  String.concat newline (cssLines rawTheme theme colorMap).

End ThemeCss.

(** ** index.ts: theme bookkeeping and the rebind queue *)

(** Editors are told apart by identity. *)
Definition Editor : Type := nat.

(** [WeakMap<Editor, V>] and [WeakSet<Editor>]: keyed by identity, never
    iterated. *)
Module WeakMap.
Section WithValue.
Context {V : Type}.

Definition t : Type := list (Editor * V).

Fixpoint get (m : t) (k : Editor) : option V :=
  match m with
  | [] => None
  | (k', v) :: r => if Nat.eqb k' k then Some v else get r k
  end.

Fixpoint delete (m : t) (k : Editor) : t :=
  match m with
  | [] => []
  | (k', v) :: r => if Nat.eqb k' k then delete r k else (k', v) :: delete r k
  end.

Definition set (m : t) (k : Editor) (v : V) : t := (k, v) :: delete m k.
End WithValue.
Arguments t V : clear implicits.
End WeakMap.

Module WeakSet.
Definition t : Type := list Editor.
Definition has (s : t) (x : Editor) : bool := existsb (Nat.eqb x) s.
Definition delete (s : t) (x : Editor) : t :=
  filter (fun y => negb (Nat.eqb x y)) s.
Definition add (s : t) (x : Editor) : t := if has s x then s else x :: s.
End WeakSet.

Module Index.
Local Open Scope list_scope.

(** The entry of [tmThemeStyleNodes]; the style node is named by the theme
    whose stylesheet it carries. *)
Record StyleMeta : Type := mkMeta {
  styleNode : string;
  inUseBy : WeakSet.t;
  inUseByCount : Z
}.

(** A mode registered with [CodeMirror.defineMode]: the language id and
    the key of the highlighter whose tokenizer it wraps. *)
Record ModeDefinition : Type := mkMode {
  mode_languageId : string;
  mode_highlighter : string
}.

(** What the executor of [updateCmTmBindings] has reached. *)
Inductive Phase : Type :=
| AwaitingTokenizer (languageId : string) (highlighter : string)
| Settled (value : bool).

(** One [PCancelable] made by [updateCmTmBindings(cm)].  [canceled] is the
    closure variable set by the [onCancel] handler; with [shouldReject]
    off, cancelling does nothing else. *)
Record Activation : Type := mkActivation {
  act_cm : Editor;
  act_phase : Phase;
  canceled : bool
}.

(** [proceed] parked at [resolver(await currentActivation)], with its two
    locals; [resolver] is [None] when the map lookup gave [undefined]. *)
Record Parked : Type := mkParked {
  nextCM : Editor;
  resolver : option nat
}.

Record World : Type := mkWorld {
  (* the editors: their [mode] and [theme] options *)
  options : WeakMap.t (string * string);
  (* module level *)
  themedHighlighters : JsMap.t Highlighter.t;
  statics : Highlighter.Statics;
  (* closure of updateCmTmBindings *)
  cmModeToTheme : JsMap.t string;
  cmThemeRecord : WeakMap.t string;
  tmThemeStyleNodes : JsMap.t StyleMeta;
  document_head : list string;
  defineMode_calls : list ModeDefinition;
  (* closure of safeUpdateCM *)
  queue : list Editor;
  resolverCallbacks : WeakMap.t nat;
  currentActivation : option Activation;
  parked : option Parked;
  (* the promises handed out by safeUpdateCM, by number: [None] while
     pending *)
  promises : list (option bool);
  uncaught : list JsError
}.

Definition initial : World :=
  mkWorld [] [("default", Highlighter.mk None)] Highlighter.initial
    [] [] [] [] [] [] [] None None [] [].

(** [cm.getOption('mode')]: a mode name, or CodeMirror's default [null]
    (here [None]) for an editor whose options were never set. *)
Definition getOption_mode (w : World) (cm : Editor) : option string :=
  match WeakMap.get (options w) cm with
  | Some (mode, _) => Some mode
  | None => None
  end.

Definition getOption_theme (w : World) (cm : Editor) : string :=
  match WeakMap.get (options w) cm with
  | Some (_, theme) => theme
  | None => "default"
  end.

Definition setOptions (cm : Editor) (mode theme : string) (w : World)
  : World :=
  mkWorld (WeakMap.set (options w) cm (mode, theme))
    (themedHighlighters w) (statics w) (cmModeToTheme w) (cmThemeRecord w)
    (tmThemeStyleNodes w) (document_head w) (defineMode_calls w) (queue w)
    (resolverCallbacks w) (currentActivation w) (parked w) (promises w)
    (uncaught w).

(** [addTheme] for a theme object whose [name] is the string [name]. *)
Definition addTheme (name : string) (th : Highlighter.Theme) (w : World)
  : World :=
  mkWorld (options w)
    (JsMap.set (themedHighlighters w) name (Highlighter.mk (Some th)))
    (statics w) (cmModeToTheme w) (cmThemeRecord w)
    (tmThemeStyleNodes w) (document_head w) (defineMode_calls w) (queue w)
    (resolverCallbacks w) (currentActivation w) (parked w) (promises w)
    (uncaught w).

Definition with_statics (st : Highlighter.Statics) (w : World) : World :=
  mkWorld (options w) (themedHighlighters w) st (cmModeToTheme w)
    (cmThemeRecord w) (tmThemeStyleNodes w) (document_head w)
    (defineMode_calls w) (queue w) (resolverCallbacks w)
    (currentActivation w) (parked w) (promises w) (uncaught w).

(** The part of the world owned by [updateCmTmBindings]. *)
Definition with_bindings (m2t : JsMap.t string) (rec : WeakMap.t string)
    (nodes : JsMap.t StyleMeta) (head : list string)
    (defs : list ModeDefinition) (w : World) : World :=
  mkWorld (options w) (themedHighlighters w) (statics w) m2t rec nodes head
    defs (queue w) (resolverCallbacks w) (currentActivation w) (parked w)
    (promises w) (uncaught w).

(** The part of the world owned by [safeUpdateCM]. *)
Definition with_queue (q : list Editor) (cbs : WeakMap.t nat)
    (act : option Activation) (pk : option Parked)
    (ps : list (option bool)) (errs : list JsError) (w : World) : World :=
  mkWorld (options w) (themedHighlighters w) (statics w) (cmModeToTheme w)
    (cmThemeRecord w) (tmThemeStyleNodes w) (document_head w)
    (defineMode_calls w) q cbs act pk ps errs.

(** [document.head.removeChild(node)] *)
Fixpoint removeChild (head : list string) (node : string) : list string :=
  match head with
  | [] => []
  | n :: r => if String.eqb n node then r else n :: removeChild r node
  end.

(** "Cleanup previous theme resources (if any)" *)
Definition cleanup_previous (cm : Editor) (prevThemeName themeName : string)
    (w : World) : JsMap.t StyleMeta * list string :=
  let nodes := tmThemeStyleNodes w in
  let head := document_head w in
  if negb (String.eqb prevThemeName "default")
     && negb (String.eqb prevThemeName themeName)
     && JsMap.has (themedHighlighters w) themeName
  then
    match JsMap.get nodes prevThemeName with
    | Some meta =>
        if WeakSet.has (inUseBy meta) cm && (inUseByCount meta =? 1)%Z then
          (JsMap.delete nodes prevThemeName,
           removeChild head (styleNode meta))
        else
          (JsMap.set nodes prevThemeName
             (mkMeta (styleNode meta) (WeakSet.delete (inUseBy meta) cm)
                (inUseByCount meta - 1)%Z),
           head)
    | None => (nodes, head)
    end
  else (nodes, head).

(** "Allocate new theme resources (if applicable)" *)
Definition allocate_new (cm : Editor) (themeName : string)
    (isTextMateTheme : bool) (nodes : JsMap.t StyleMeta)
    (head : list string) : JsMap.t StyleMeta * list string :=
  if isTextMateTheme then
    match JsMap.get nodes themeName with
    | Some meta =>
        if negb (WeakSet.has (inUseBy meta) cm) then
          (JsMap.set nodes themeName
             (mkMeta (styleNode meta) (WeakSet.add (inUseBy meta) cm)
                (inUseByCount meta + 1)%Z),
           head)
        else (nodes, head)
    | None =>
        (JsMap.set nodes themeName
           (mkMeta themeName (WeakSet.add [] cm) 1%Z),
         head ++ [themeName])
    end
  else (nodes, head).

(** [updateCmTmBindings(cm)] for an editor: the executor up to its first
    suspension or its early [resolve].  The suspension is the [await] of
    [getTokenizer]; its answer arrives as an event of its own, and the
    engine instance [getTokenizer] may build on the way is not recorded in
    [statics] here.  (The other use of the function, with no editor and a
    list of languages to invalidate, is [updateCmTmBindings_invalidate]
    below.) *)
Definition updateCmTmBindings (cm : Editor) (w : World)
  : Activation * World :=
  let languageId := getOption_mode w cm in
  let themeName := getOption_theme w cm in
  let languageBoundTheme :=
    match languageId with
    | Some id => JsMap.get (cmModeToTheme w) id
    | None => None
    end in
  let prevThemeName :=
    match WeakMap.get (cmThemeRecord w) cm with
    | Some "" | None => "default"
    | Some recorded => recorded
    end in
  let highlighter :=
    if JsMap.has (themedHighlighters w) themeName then themeName
    else "default" in
  let isTextMateTheme :=
    negb (String.eqb themeName "default")
    && JsMap.has (themedHighlighters w) themeName in
  let registered :=
    match languageId with
    | Some id => Highlighter.hasLanguageRegistered id (statics w)
    | None => false
    end in
  let rec := WeakMap.set (cmThemeRecord w) cm themeName in
  let m2t :=
    match languageId with
    | Some id =>
        if registered then JsMap.set (cmModeToTheme w) id themeName
        else cmModeToTheme w
    | None => cmModeToTheme w
    end in
  let '(nodes1, head1) := cleanup_previous cm prevThemeName themeName w in
  let '(nodes2, head2) :=
    allocate_new cm themeName isTextMateTheme nodes1 head1 in
  let w' := with_bindings m2t rec nodes2 head2 (defineMode_calls w) w in
  let same_as_baked :=
    match languageId, languageBoundTheme with
    | Some _, Some bound => String.eqb bound themeName
    | _, _ => false
    end in
  if same_as_baked then
    (mkActivation cm
       (Settled (negb (String.eqb prevThemeName themeName))) false, w')
  else
    match languageId with
    | Some id =>
        if negb registered then (mkActivation cm (Settled false) false, w')
        else (mkActivation cm (AwaitingTokenizer id highlighter) false, w')
    | None => (mkActivation cm (Settled false) false, w')
    end.

(** [cancel()] of the PCancelable: nothing once settled or cancelled. *)
Definition cancel (a : Activation) : Activation :=
  match act_phase a with
  | Settled _ => a
  | AwaitingTokenizer _ _ => mkActivation (act_cm a) (act_phase a) true
  end.

(** Calling the resolve function of promise [p]: only the first call
    counts. *)
Fixpoint resolve_promise (ps : list (option bool)) (p : nat) (value : bool)
  : list (option bool) :=
  match ps, p with
  | [], _ => []
  | None :: r, O => Some value :: r
  | Some v :: r, O => Some v :: r
  | x :: r, S p' => x :: resolve_promise r p' value
  end.

(** [queue.shift()] *)
Definition shift (q : list Editor) : list Editor := tl q.

(** [queue.indexOf(cm) === -1] *)
Definition not_queued (q : list Editor) (cm : Editor) : bool :=
  negb (existsb (Nat.eqb cm) q).

(** [proceed()] up to its [await]: start the activation of the head of the
    queue, pick up its resolver and park. *)
Definition proceed (w : World) : World :=
  match queue w with
  | [] => w
  | next :: _ =>
      let '(activation, w1) := updateCmTmBindings next w in
      with_queue (queue w1) (resolverCallbacks w1) (Some activation)
        (Some (mkParked next (WeakMap.get (resolverCallbacks w1) next)))
        (promises w1) (uncaught w1) w1
  end.

(** The first [if] of [safeUpdateCM]: "currently happening but now
    obsolete".  It throws when the map holds no resolver to call. *)
Definition supersede_active (cm : Editor) (w : World)
  : completion unit * World :=
  match queue w, currentActivation w with
  | head :: _, Some activation =>
      if Nat.eqb head cm then
        let prevResolver := WeakMap.get (resolverCallbacks w) cm in
        let w1 :=
          with_queue (shift (queue w) ++ [cm])
            (WeakMap.delete (resolverCallbacks w) cm)
            (Some (cancel activation)) (parked w) (promises w)
            (uncaught w) w in
        match prevResolver with
        | Some p =>
            (Normal tt,
             with_queue (queue w1) (resolverCallbacks w1)
               (currentActivation w1) (parked w1)
               (resolve_promise (promises w1) p false) (uncaught w1) w1)
        | None => (Throw (TypeError "prevResolver is not a function"), w1)
        end
      else (Normal tt, w)
  | _, _ => (Normal tt, w)
  end.

(** [safeUpdateCM(cm)]: the number of the promise [prom] the caller ends up
    with, and the world when the call returns.  A throw means the promise
    of the async function is rejected instead. *)
Definition safeUpdateCM (cm : Editor) (w : World)
  : completion nat * World :=
  match supersede_active cm w with
  | (Throw e, w1) => (Throw e, w1)
  | (Normal _, w1) =>
      (* if hasn't been queued up yet then do it *)
      let q := if not_queued (queue w1) cm then queue w1 ++ [cm]
               else queue w1 in
      let prom := length (promises w1) in
      let w2 :=
        with_queue q (WeakMap.set (resolverCallbacks w1) cm prom)
          (currentActivation w1) (parked w1) (promises w1 ++ [None])
          (uncaught w1) w1 in
      (* no work is being done: start the queue *)
      match currentActivation w2 with
      | Some _ => (Normal prom, w2)
      | None => (Normal prom, proceed w2)
      end
  end.

(** The tokenizer awaited by the current activation arrives (its
    acquisition succeeded): the executor runs to its end. *)
Definition tokenizer_ready (w : World) : World :=
  match currentActivation w with
  | Some a =>
      match act_phase a with
      | AwaitingTokenizer languageId highlighter =>
          if canceled a then
            with_queue (queue w) (resolverCallbacks w)
              (Some (mkActivation (act_cm a) (Settled false) (canceled a)))
              (parked w) (promises w) (uncaught w) w
          else
            let w1 :=
              with_bindings (cmModeToTheme w) (cmThemeRecord w)
                (tmThemeStyleNodes w) (document_head w)
                (defineMode_calls w ++ [mkMode languageId highlighter]) w in
            with_queue (queue w1) (resolverCallbacks w1)
              (Some (mkActivation (act_cm a) (Settled true) (canceled a)))
              (parked w1) (promises w1) (uncaught w1) w1
      | Settled _ => w
      end
  | None => w
  end.

(** [proceed] wakes up with the value of the settled activation and runs
    to its next [await] (or to its end). *)
Definition resume (w : World) : World :=
  match currentActivation w, parked w with
  | Some a, Some pk =>
      match act_phase a with
      | Settled value =>
          match resolver pk with
          | Some p =>
              proceed
                (with_queue (shift (queue w))
                   (WeakMap.delete (resolverCallbacks w) (nextCM pk))
                   None None
                   (resolve_promise (promises w) p value) (uncaught w) w)
          | None =>
              with_queue (queue w) (resolverCallbacks w)
                (currentActivation w) None (promises w)
                (uncaught w ++ [TypeError "resolver is not a function"]) w
          end
      | AwaitingTokenizer _ _ => w
      end
  | _, _ => w
  end.

(** What can happen, one thing at a time on the single thread. *)
Inductive Event : Type :=
| SetOptions (cm : Editor) (mode theme : string)
| SafeUpdateCM (cm : Editor)
| TokenizerReady
| Resume.

Definition step (w : World) (e : Event) : World :=
  match e with
  | SetOptions cm mode theme => setOptions cm mode theme w
  | SafeUpdateCM cm => snd (safeUpdateCM cm w)
  | TokenizerReady => tokenizer_ready w
  | Resume => resume w
  end.

Definition run (events : list Event) (w : World) : World :=
  fold_left step events w.

(** *** The exported [linkInjections] and [unlinkInjections] *)

(** Whether an awaited promise fulfilled; one that rejected or is still
    pending did not. *)
Definition is_fulfilled {A : Type} (p : Outcome A) : bool :=
  match p with
  | Settles (Fulfilled _) => true
  | Settles (Rejected _) => false
  | NeverSettles => false
  end.

Section Invalidate.
Variable loadGrammar : Highlighter.Statics -> string -> Outcome (option IGrammar).

(** One callback of [invalidateLanguages.map(async (lang) => ...)], up to
    its [await]: [cmModeToTheme.delete(lang)] tells whether the language
    was there, and if so the language is loaded again.  The promises so
    awaited are collected. *)
Definition invalidate_one
    (acc : World * list (Outcome (option IGrammar))) (lang : string)
  : World * list (Outcome (option IGrammar)) :=
  let '(w, awaited) := acc in
  if JsMap.has (cmModeToTheme w) lang then
    let w1 :=
      with_bindings (JsMap.delete (cmModeToTheme w) lang) (cmThemeRecord w)
        (tmThemeStyleNodes w) (document_head w) (defineMode_calls w) w in
    let '(p, st') := Highlighter.loadLanguage loadGrammar lang (statics w1) in
    (with_statics st' w1, awaited ++ [Highlighter.await_load p])
  else (w, awaited).

(** [updateCmTmBindings(null, invalidateLanguages)]: the value its promise
    resolves to, or [None] when it never settles -- a load that rejects
    makes the executor throw, and then nobody resolves or rejects the
    promise; a load that stays pending keeps [Promise.all] pending.
    [invalidateLanguages] is [None] when it is not an array. *)
Definition updateCmTmBindings_invalidate
    (invalidateLanguages : option (list string)) (w : World)
  : option bool * World :=
  match invalidateLanguages with
  | None => (Some false, w)
  | Some languages =>
      let '(w', awaited) := fold_left invalidate_one languages (w, []) in
      if forallb is_fulfilled awaited then (Some false, w') else (None, w')
  end.

(** The exported [linkInjections]: an async function. *)
Definition linkInjections (scopeName : string) (injectInto : JsValue)
    (w : World) : Outcome (list string) * World :=
  match Highlighter.linkInjections scopeName injectInto (statics w) with
  | (Throw e, _) => (Settles (Rejected e), w)
  | (Normal affectedLanguages, st') =>
      match updateCmTmBindings_invalidate (Some affectedLanguages)
              (with_statics st' w) with
      | (Some _, w') => (Settles (Fulfilled affectedLanguages), w')
      | (None, w') => (NeverSettles, w')
      end
  end.

(** The exported [unlinkInjections]; its value is [None] for [undefined]. *)
Definition unlinkInjections (scopeName : string) (unInjectFrom : JsValue)
    (w : World) : Outcome (option (list string)) * World :=
  match Highlighter.unlinkInjections scopeName unInjectFrom (statics w) with
  | (Throw e, _) => (Settles (Rejected e), w)
  | (Normal affectedLanguages, st') =>
      match updateCmTmBindings_invalidate affectedLanguages
              (with_statics st' w) with
      | (Some _, w') => (Settles (Fulfilled affectedLanguages), w')
      | (None, w') => (NeverSettles, w')
      end
  end.
End Invalidate.

End Index.

(** * Notions used to state the properties *)

(** What a computation on an empty cache yields: the walk over the split
    scope. *)
Definition classify (scope : string) : option TmToCm.CmToken :=
  TmToCm.walk (TmToCm.split_dot scope) TmToCm.tmToCm.



(** What a themed highlighter makes of one scope: a class name when the
    first rule the theme matches has a positive foreground index. *)
Definition themed_token (th : Highlighter.Theme) (scope : string)
  : option string :=
  let rule := fst (Highlighter.theme_match th scope) in
  if (0 <? Highlighter.foreground rule)%Z
  then Some (Highlighter.theme_class rule)
  else None.

(** The injection set a host has so far; none is the empty one. *)
Definition hosted (inj : JsMap.t JsSet.t) (host : string) : JsSet.t :=
  match JsMap.get inj host with
  | Some s => s
  | None => JsSet.empty
  end.

(** Which hosts a call [unlinkInjections(scopeName, injections)] works on:
    all of them when no list is given, the listed ones otherwise. *)
Definition unlink_selects (injections : JsValue) (host : string) : bool :=
  if truthy injections then
    match string_array injections with
    | Some hosts => includes hosts host
    | None => false
    end
  else true.

(** A host list [unlinkInjections] accepts: none at all, or an array of
    strings. *)
Definition unlink_accepts (injections : JsValue) : Prop :=
  truthy injections = false \/ exists hosts, string_array injections = Some hosts.

(** No set of the map lists a scope twice (a [Set] never does). *)
Definition sets_distinct (inj : JsMap.t JsSet.t) : Prop :=
  forall h l, JsMap.get inj h = Some l -> NoDup l.




(** The previous theme [updateCmTmBindings] works out for an editor. *)
Definition previous_theme (w : Index.World) (cm : Editor) : string :=
  match WeakMap.get (Index.cmThemeRecord w) cm with
  | Some "" | None => "default"
  | Some recorded => recorded
  end.

(** An entry of [tmThemeStyleNodes] in good order: the node is the one of
    its theme, the users are listed once each, there is at least one, the
    count is their number, and the theme is a registered one other than
    ['default']. *)
Definition meta_ok (highlighters : JsMap.t Highlighter.t) (theme : string)
    (meta : Index.StyleMeta) : Prop :=
  Index.styleNode meta = theme
  /\ NoDup (Index.inUseBy meta)
  /\ Index.inUseBy meta <> []
  /\ Index.inUseByCount meta = Z.of_nat (length (Index.inUseBy meta))
  /\ JsMap.has highlighters theme = true
  /\ theme <> "default".

(** The entries and the document agree and every entry is in good order. *)
Definition nodes_ok (highlighters : JsMap.t Highlighter.t)
    (nodes : JsMap.t Index.StyleMeta) (head : list string) : Prop :=
  NoDup (JsMap.keys nodes)
  /\ head = JsMap.keys nodes
  /\ (forall theme meta,
        JsMap.get nodes theme = Some meta -> meta_ok highlighters theme meta).

(** Editor [cm], if recorded with a registered theme other than ['default'],
    is among the users of that theme's entry. *)
Definition user_ok (highlighters : JsMap.t Highlighter.t)
    (record : WeakMap.t string) (nodes : JsMap.t Index.StyleMeta)
    (cm : Editor) : Prop :=
  forall theme,
    WeakMap.get record cm = Some theme ->
    theme <> "default" ->
    JsMap.has highlighters theme = true ->
    exists meta,
      JsMap.get nodes theme = Some meta /\ In cm (Index.inUseBy meta).

(** The stylesheet bookkeeping in good order: one entry per theme, the
    document holding exactly the nodes of the entries, every entry as
    above, and every editor recorded with a registered theme other than
    ['default'] among the users of that theme's entry. *)
Definition sheets_ok (w : Index.World) : Prop :=
  nodes_ok (Index.themedHighlighters w) (Index.tmThemeStyleNodes w)
    (Index.document_head w)
  /\ forall cm,
       user_ok (Index.themedHighlighters w) (Index.cmThemeRecord w)
         (Index.tmThemeStyleNodes w) cm.

(** The highlighter [updateCmTmBindings] picks for a theme name. *)
Definition highlighter_for (w : Index.World) (themeName : string) : string :=
  if JsMap.has (Index.themedHighlighters w) themeName then themeName
  else "default".

(** What the [forEach] of [unlinkInjections] does to one entry of the map. *)
Definition unlink_entry (scopeName : string) (selected : string -> bool)
    (e : string * JsSet.t) : string * JsSet.t :=
  (fst e,
   if selected (fst e) && JsSet.has (snd e) scopeName
   then JsSet.delete (snd e) scopeName else snd e).

(** The part of the world the stylesheet bookkeeping lives in. *)
Definition sheet_fields (w : Index.World) :=
  (Index.themedHighlighters w, Index.cmThemeRecord w,
   Index.tmThemeStyleNodes w, Index.document_head w).

(** The lines of a text: what lies between its newline characters. *)
Fixpoint lines_of (text : string) : list string :=
  match text with
  | EmptyString => [EmptyString]
  | String c rest =>
      if Ascii.eqb c (Ascii.ascii_of_nat 10) then EmptyString :: lines_of rest
      else
        match lines_of rest with
        | line :: more => String c line :: more
        | [] => [String c EmptyString]
        end
  end.

(** A string without newline character. *)
Fixpoint single_line (s : string) : bool :=
  match s with
  | EmptyString => true
  | String c rest =>
      negb (Ascii.eqb c (Ascii.ascii_of_nat 10)) && single_line rest
  end.

Definition opt_single_line (value : option string) : bool :=
  match value with
  | Some v => single_line v
  | None => true
  end.

(** The general settings [cssTextFromTmTheme] picks: those of the first
    rule without scope. *)
Definition general_settings (rawTheme : ThemeCss.ITextmateThemePlus)
  : option ThemeCss.RuleSettings :=
  match find ThemeCss.scopeless (ThemeCss.settings rawTheme) with
  | Some rule => ThemeCss.settings_of rule
  | None => None
  end.

(** No string the stylesheet is put together from holds a newline: the
    theme's name, the values of its general and gutter settings, and the
    colours of the engine's table. *)
Definition theme_single_line (rawTheme : ThemeCss.ITextmateThemePlus)
    (colorMap : ThemeCss.ColorMap) : bool :=
  single_line (ThemeCss.name rawTheme)
  && match general_settings rawTheme with
     | Some g =>
         opt_single_line (ThemeCss.background g)
         && opt_single_line (ThemeCss.caret g)
         && opt_single_line (ThemeCss.foreground g)
         && opt_single_line (ThemeCss.lineHighlight g)
         && opt_single_line (ThemeCss.selection g)
     | None => true
     end
  && match ThemeCss.gutterSettings rawTheme with
     | Some g =>
         opt_single_line (ThemeCss.gutter_background g)
         && opt_single_line (ThemeCss.divider g)
         && opt_single_line (ThemeCss.gutter_foreground g)
         && opt_single_line (ThemeCss.lineActiveBackground g)
         && opt_single_line (ThemeCss.lineActiveForeground g)
     | None => true
     end
  && forallb opt_single_line colorMap.

(** ** Fixtures *)

(** A registry with one grammar and one bound language. *)
Definition js_registry : Highlighter.Statics :=
  Highlighter.mkStatics [] [("source.js", RawGrammar "{}")]
    [("source.js", "javascript")] [("javascript", "source.js")] None.

(** An engine whose loads all succeed with the same one-token grammar. *)
Definition whole_line_grammar : IGrammar :=
  mkGrammar (fun line stack =>
    mkLineResult [mkToken 0 (String.length line) ["source.js"]] stack).

Definition ready_engine (st : Highlighter.Statics) (scopeName : string)
  : Outcome (option IGrammar) :=
  Settles (Fulfilled (Some whole_line_grammar)).

(** An engine that finds nothing to compile and says so. *)
Definition failing_engine (st : Highlighter.Statics) (scopeName : string)
  : Outcome (option IGrammar) :=
  Settles
    (Rejected
       (Error ("Grammar for scope '" ++ scopeName ++ "' not found.")))%string.

(** An engine whose loads are never answered. *)
Definition hanging_engine (st : Highlighter.Statics) (scopeName : string)
  : Outcome (option IGrammar) :=
  NeverSettles.

(** A registry with two grammars, each bound to a language. *)
Definition two_language_registry : Highlighter.Statics :=
  Highlighter.mkStatics []
    [("source.js", RawGrammar "{}"); ("source.ts", RawGrammar "{}")]
    [("source.js", "javascript"); ("source.ts", "typescript")]
    [("javascript", "source.js"); ("typescript", "source.ts")] None.

(** One editor, number 0, in mode [javascript] with the default theme. *)
Definition one_editor : Index.World :=
  Index.setOptions 0 "javascript" "default"
    (Index.with_statics two_language_registry Index.initial).

(** The editor asks for a rebind, its mode is changed, and it asks again
    before the first tokenizer has arrived; then the tokenizer arrives and
    the queue moves on. *)
Definition rapid_rebinds : list Index.Event :=
  [Index.SafeUpdateCM 0;
   Index.SetOptions 0 "typescript" "default";
   Index.SafeUpdateCM 0;
   Index.TokenizerReady;
   Index.Resume].

(** Two editors; the second asks twice while the first is being served. *)
Definition queued_twice : list Index.Event :=
  [Index.SafeUpdateCM 0;
   Index.SafeUpdateCM 1;
   Index.SafeUpdateCM 1;
   Index.TokenizerReady; Index.Resume;
   Index.TokenizerReady; Index.Resume].

(** A grammar whose single token runs over the line break the engine
    appends to the line, so that it ends one past the line's length. *)
Definition through_newline_grammar : IGrammar :=
  mkGrammar (fun line stack =>
    mkLineResult [mkToken 0 (S (String.length line)) ["source.js"]] stack).

(** A grammar that cuts every line after its third character. *)
Definition two_token_grammar : IGrammar :=
  mkGrammar (fun line stack =>
    mkLineResult
      [mkToken 0 3 ["source.js"; "storage.type.js"];
       mkToken 3 (String.length line) ["source.js"; "variable.other.js"]]
      (1 :: stack)).

(** A theme that colours keywords (index 5, italic) and nothing else. *)
Definition keyword_theme : Highlighter.Theme :=
  Highlighter.mkTheme (fun scope =>
    if String.prefix "keyword" scope
    then (Highlighter.mkRule 1 5, [Highlighter.mkRule 0 0])
    else (Highlighter.mkRule 0 0, [])).

(** [js_registry] after ['styled'] was injected into ['source.js'] and into
    itself, so that it is a host as well. *)
Definition styled_registry : Highlighter.Statics :=
  snd (Highlighter.linkInjections "styled"
         (JArray [JString "source.js"; JString "styled"]) js_registry).

(** A registry whose grammar is still behind a producer. *)
Definition lazy_registry : Highlighter.Statics :=
  Highlighter.mkStatics []
    [("source.js", Producer (fun scopeName => "{ " ++ scopeName ++ " }") true)]
    [("source.js", "javascript")] [("javascript", "source.js")] None.

(** Two editors, both in mode [javascript], with a registered TextMate
    theme each may switch to. *)
Definition themed_world : Index.World :=
  Index.setOptions 1 "javascript" "Monokai"
    (Index.setOptions 0 "javascript" "Monokai"
       (Index.addTheme "Monokai" keyword_theme
          (Index.with_statics two_language_registry Index.initial))).

(** Both editors are bound, then the first goes back to the default
    theme. *)
Definition share_then_leave : list Index.Event :=
  [Index.SafeUpdateCM 0; Index.TokenizerReady; Index.Resume;
   Index.SafeUpdateCM 1; Index.Resume;
   Index.SetOptions 0 "javascript" "default";
   Index.SafeUpdateCM 0; Index.TokenizerReady; Index.Resume].

(** [one_editor] after its rebind went through: [javascript] is baked with
    the default theme. *)
Definition baked_world : Index.World :=
  Index.run [Index.SafeUpdateCM 0; Index.TokenizerReady; Index.Resume]
    one_editor.



(** A theme with general settings, and the colour table of its engine. *)
Definition mono_theme : ThemeCss.ITextmateThemePlus :=
  ThemeCss.mkRawTheme "mono"
    [ThemeCss.mkRawRule ThemeCss.NoScope
       (Some (ThemeCss.mkSettings (Some "#ffffff") None (Some "#000000")
                None None))]
    None.

Definition mono_colors : ThemeCss.ColorMap :=
  [None; Some "#000000"; Some "#111111"; Some "#222222"; Some "#333333";
   Some "#ff0000"].

(** * Properties *)

Open Scope list_scope.

Section JsMapFacts.
Context {V : Type}.


Lemma JsMap_get_In (m : JsMap.t V) k v :
  JsMap.get m k = Some v -> In (k, v) m.
Proof.
  induction m as [|[k0 v0] r IH]; simpl; [discriminate|].
  destruct (String.eqb_spec k0 k) as [->|Hne]; intros H.
  - injection H as ->. now left.
  - right. now apply IH.
Qed.

Lemma JsMap_delete_length (m : JsMap.t V) k :
  length (JsMap.delete m k) <= length m.
Proof.
  induction m as [|[k0 v0] r IH]; simpl; [lia|].
  destruct (String.eqb k0 k); simpl; lia.
Qed.
End JsMapFacts.

Section ClassifierFacts.
Import TmToCm.










End ClassifierFacts.

(** ** The classifier on a few scopes *)

Example classify_function_name :
  classify "entity.name.function" = Some TmToCm.Def.
Proof. reflexivity. Qed.

Example classify_falls_back_to_parent :
  classify "keyword.other.special-method" = Some TmToCm.Keyword
  /\ classify "string.quoted.double.js" = Some TmToCm.String_
  /\ classify "entity.name.type.class.ts" = Some TmToCm.Variable_.
Proof. repeat split; reflexivity. Qed.

Example classify_unknown_root :
  classify "meta.brace.round" = None /\ classify "" = None
  /\ classify "entity" = None.
Proof. repeat split; reflexivity. Qed.

Example split_dot_examples :
  TmToCm.split_dot "a.b" = ["a"; "b"] /\ TmToCm.split_dot "" = [""]
  /\ TmToCm.split_dot "a." = ["a"; ""].
Proof. repeat split; reflexivity. Qed.


(** ** The registry *)

(** C7. When the language id has no binding, or is bound to a scope that has
    no grammar source, [loadLanguage] answers [null] -- it is a plain
    return, the engine is neither built nor asked, and the statics are left
    as they were. *)
Theorem loadLanguage_unknown_is_null :
  forall (loadGrammar : Highlighter.Statics -> string -> Outcome (option IGrammar))
         (languageId : string) (st : Highlighter.Statics),
    (JsMap.get (Highlighter.languageIdToScopeName st) languageId = None
     \/ exists scopeName,
          JsMap.get (Highlighter.languageIdToScopeName st) languageId
            = Some scopeName
          /\ JsMap.has (Highlighter.scopeNameToRawGrammars st) scopeName
             = false) ->
    Highlighter.loadLanguage loadGrammar languageId st = (None, st).
Proof.
  intros loadGrammar languageId st [H | (scopeName & H & Hraw)];
    unfold Highlighter.loadLanguage; rewrite H; [reflexivity|].
  rewrite Hraw. cbn [negb]. now rewrite orb_true_r.
Qed.

Lemma loadLanguage_unknown_is_null_witness :
  Highlighter.loadLanguage (fun _ _ => Settles (Fulfilled None)) "javascript"
    Highlighter.initial
  = (None, Highlighter.initial).
Proof.
  apply loadLanguage_unknown_is_null. left. reflexivity.
Defined.

(** C5, as stated, fails: a bound language id activated for a scope without
    grammar is turned down for the missing grammar, that check coming
    first. *)
Lemma duplicate_binding_not_always_the_error :
  ~ (forall loadGrammar st scopeName languageId load bound,
        JsMap.get (Highlighter.languageIdToScopeName st) languageId
          = Some bound ->
        fst (fst (Highlighter.activateLanguage loadGrammar scopeName
                    languageId load st))
        = Settles (Rejected (Highlighter.already_bound languageId bound))).
Proof.
  intros H.
  specialize (H (fun _ _ => Settles (Fulfilled None)) js_registry "source.css"
                "javascript" defer "source.js" eq_refl).
  vm_compute in H. discriminate H.
Qed.

(** C5, amended. Activating a language id that is already bound always
    fails and leaves every registry map (and the engine instance) as it was:
    with the duplicate-binding error naming the bound scope when the
    requested scope has a grammar, whether or not it is the bound one, and
    with the unknown-scope error when it has none.  The unknown-scope
    failure leaves the statics untouched as well. *)
Theorem activateLanguage_bound_id_fails :
  forall (loadGrammar : Highlighter.Statics -> string -> Outcome (option IGrammar))
         (st : Highlighter.Statics) (scopeName languageId : string)
         (load : LoadPriority) (bound : string),
    JsMap.get (Highlighter.languageIdToScopeName st) languageId = Some bound ->
    Highlighter.activateLanguage loadGrammar scopeName languageId load st
    = (Settles
         (Rejected
            (if JsMap.has (Highlighter.scopeNameToRawGrammars st) scopeName
             then Highlighter.already_bound languageId bound
             else Highlighter.no_grammar scopeName)),
       st, []).
Proof.
  intros loadGrammar st scopeName languageId load bound H.
  unfold Highlighter.activateLanguage.
  destruct (JsMap.has (Highlighter.scopeNameToRawGrammars st) scopeName);
    cbn [negb]; [now rewrite H | reflexivity].
Qed.

Lemma activateLanguage_bound_id_fails_witness :
  Highlighter.activateLanguage (fun _ _ => Settles (Fulfilled None)) "source.js"
    "javascript" now js_registry
  = (Settles (Rejected (Highlighter.already_bound "javascript" "source.js")),
     js_registry, []).
Proof.
  exact (activateLanguage_bound_id_fails (fun _ _ => Settles (Fulfilled None))
           js_registry "source.js" "javascript" now "source.js" eq_refl).
Defined.

Section JsMapSetFacts.
Context {V : Type}.

Lemma JsMap_get_set_same (m : JsMap.t V) k v :
  JsMap.get (JsMap.set m k v) k = Some v.
Proof.
  induction m as [|[k0 v0] r IH]; cbn [JsMap.set JsMap.get].
  - now rewrite String.eqb_refl.
  - destruct (String.eqb k0 k) eqn:E; cbn [JsMap.get]; rewrite E;
      [reflexivity | exact IH].
Qed.

Lemma JsMap_get_set_other (m : JsMap.t V) k k' v :
  k <> k' -> JsMap.get (JsMap.set m k v) k' = JsMap.get m k'.
Proof.
  intros Hne. induction m as [|[k0 v0] r IH]; cbn [JsMap.set JsMap.get].
  - destruct (String.eqb_spec k k'); [contradiction | reflexivity].
  - destruct (String.eqb_spec k0 k) as [->|Hk]; cbn [JsMap.get].
    + destruct (String.eqb_spec k k'); [contradiction | reflexivity].
    + destruct (String.eqb k0 k'); [reflexivity | exact IH].
Qed.
End JsMapSetFacts.

(** C2, as stated, fails: with ['asap'] and an engine that compiles the
    grammar the promise resolves to [true], not [false]. *)
Lemma asap_resolves_true :
  ~ (forall loadGrammar st scopeName languageId load,
        JsMap.has (Highlighter.scopeNameToRawGrammars st) scopeName = true ->
        JsMap.get (Highlighter.languageIdToScopeName st) languageId = None ->
        (fst (fst (Highlighter.activateLanguage loadGrammar scopeName
                     languageId load st)) = Settles (Fulfilled true)
         <-> load = now)).
Proof.
  intros H.
  specialize (H ready_engine
                (Highlighter.addGrammar "source.js" (RawGrammar "{}")
                   Highlighter.initial)
                "source.js" "javascript" asap eq_refl eq_refl).
  destruct H as [H _]. specialize (H eq_refl). discriminate H.
Qed.

(** C2, amended. For a scope with a grammar source and a language id not yet
    bound, the call binds the two to each other in both maps whatever the
    priority.  With ['defer'] it does only that: the promise resolves to
    [false] without any suspension and the engine instance is left alone.
    With ['now'] it asks the engine to load the scope, on the engine
    instance there is or on one built then, the maps already holding the
    binding, and the promise follows that load: [true] when the load
    fulfils, the load's error when it rejects, pending for good when the
    load is never answered.  Only for the empty scope name, which is falsy,
    is no load made and no engine built; the answer is then [true].  With
    ['asap'] the same happens after an idle wait of 10 seconds at most.  So
    the value is [true] for ['now'] and ['asap'] alike and [false] for
    ['defer']: it tells whether the load was awaited before the promise
    resolved. *)
Theorem activateLanguage_resolution :
  forall (loadGrammar : Highlighter.Statics -> string -> Outcome (option IGrammar))
         (st : Highlighter.Statics) (scopeName languageId : string)
         (load : LoadPriority),
    JsMap.has (Highlighter.scopeNameToRawGrammars st) scopeName = true ->
    JsMap.get (Highlighter.languageIdToScopeName st) languageId = None ->
    let bound (engine : option RegistryInstance) :=
      Highlighter.mkStatics (Highlighter.scopeNameToInjections st)
        (Highlighter.scopeNameToRawGrammars st)
        (JsMap.set (Highlighter.scopeNameToLanguageId st) scopeName
           languageId)
        (JsMap.set (Highlighter.languageIdToScopeName st) languageId
           scopeName)
        engine in
    let built :=
      match Highlighter.registry st with
      | Some instance => Some instance
      | None => Some NewRegistry
      end in
    let loaded : Outcome bool * Highlighter.Statics :=
      if String.eqb scopeName ""
      then (Settles (Fulfilled true), bound (Highlighter.registry st))
      else (match loadGrammar (bound built) scopeName with
            | Settles (Fulfilled _) => Settles (Fulfilled true)
            | Settles (Rejected e) => Settles (Rejected e)
            | NeverSettles => NeverSettles
            end,
            bound built) in
    Highlighter.activateLanguage loadGrammar scopeName languageId load st
    = match load with
      | now => (loaded, [AwaitLoad languageId])
      | asap => (loaded, [AwaitIdle 10000%Z; AwaitLoad languageId])
      | defer =>
          (Settles (Fulfilled false), bound (Highlighter.registry st), [])
      end.
Proof.
  intros loadGrammar st scopeName languageId load Hraw Hfresh.
  cbv zeta. unfold Highlighter.activateLanguage.
  rewrite Hraw, Hfresh. cbn [negb].
  destruct load; [| |reflexivity];
    unfold Highlighter.loadLanguage;
    cbn [Highlighter.languageIdToScopeName
         Highlighter.scopeNameToRawGrammars Highlighter.registry];
    rewrite JsMap_get_set_same, Hraw; cbn [negb];
    rewrite orb_false_r;
    (destruct (String.eqb scopeName ""); [reflexivity|]);
    unfold Highlighter.initRegistry, Highlighter.with_registry,
      Highlighter.await_load, await_then;
    cbn [Highlighter.scopeNameToInjections
         Highlighter.languageIdToScopeName Highlighter.scopeNameToLanguageId
         Highlighter.scopeNameToRawGrammars Highlighter.registry];
    destruct (Highlighter.registry st); reflexivity.
Qed.

Lemma activateLanguage_resolution_witness :
  Highlighter.activateLanguage ready_engine "source.js" "javascript" asap
    (Highlighter.addGrammar "source.js" (RawGrammar "{}")
       Highlighter.initial)
  = (Settles (Fulfilled true),
     Highlighter.mkStatics [] [("source.js", RawGrammar "{}")]
       [("source.js", "javascript")] [("javascript", "source.js")]
       (Some NewRegistry),
     [AwaitIdle 10000%Z; AwaitLoad "javascript"])
  /\ Highlighter.activateLanguage hanging_engine "source.js" "javascript" now
       (Highlighter.addGrammar "source.js" (RawGrammar "{}")
          Highlighter.initial)
     = (NeverSettles,
        Highlighter.mkStatics [] [("source.js", RawGrammar "{}")]
          [("source.js", "javascript")] [("javascript", "source.js")]
          (Some NewRegistry),
        [AwaitLoad "javascript"]).
Proof.
  split.
  - exact (activateLanguage_resolution ready_engine
             (Highlighter.addGrammar "source.js" (RawGrammar "{}")
                Highlighter.initial)
             "source.js" "javascript" asap eq_refl eq_refl).
  - exact (activateLanguage_resolution hanging_engine
             (Highlighter.addGrammar "source.js" (RawGrammar "{}")
                Highlighter.initial)
             "source.js" "javascript" now eq_refl eq_refl).
Defined.

(** ** Sets and the untyped host list *)

Lemma JsSet_has_In (s : JsSet.t) (x : string) :
  JsSet.has s x = true <-> In x s.
Proof.
  induction s as [|y r IH]; cbn [JsSet.has In]; [split; [discriminate | tauto]|].
  destruct (String.eqb_spec y x) as [->|Hne].
  - split; auto.
  - rewrite IH. split; [auto | intros [H|H]; [contradiction | exact H]].
Qed.

Lemma JsSet_In_add (s : JsSet.t) (x y : string) :
  In y (JsSet.add s x) <-> In y s \/ y = x.
Proof.
  induction s as [|z r IH]; cbn [JsSet.add In].
  - split; [intros [H|[]]; auto | intros [[]|H]; auto].
  - destruct (String.eqb_spec z x) as [->|Hne]; cbn [In].
    + split; [tauto | intros [H|H]; [exact H | left; now symmetry]].
    + rewrite IH. tauto.
Qed.

Lemma JsSet_has_add_same (s : JsSet.t) (x : string) :
  JsSet.has (JsSet.add s x) x = true.
Proof. apply JsSet_has_In, JsSet_In_add. now right. Qed.

Lemma JsSet_add_present (s : JsSet.t) (x : string) :
  In x s -> JsSet.add s x = s.
Proof.
  induction s as [|z r IH]; cbn [JsSet.add In]; [tauto|].
  destruct (String.eqb_spec z x) as [->|Hne]; [reflexivity|].
  intros [H|H]; [contradiction | now rewrite IH].
Qed.

Lemma JsSet_add_add (s : JsSet.t) (x : string) :
  JsSet.add (JsSet.add s x) x = JsSet.add s x.
Proof. apply JsSet_add_present, JsSet_In_add. now right. Qed.

Lemma JsSet_add_NoDup (s : JsSet.t) (x : string) :
  NoDup s -> NoDup (JsSet.add s x).
Proof.
  induction s as [|z r IH]; cbn [JsSet.add]; intros H.
  - constructor; [intros [] | constructor].
  - destruct (String.eqb_spec z x) as [->|Hne]; [exact H|].
    inversion H as [|? ? Hz Hr]; subst. constructor; [|now apply IH].
    rewrite JsSet_In_add. intros [Hin|Heq]; [contradiction | congruence].
Qed.

Lemma string_array_of_strings (hosts : list string) :
  string_array (JArray (map JString hosts)) = Some hosts.
Proof.
  cbn [string_array]. induction hosts as [|h r IH]; [reflexivity|].
  cbn [map every_string]. now rewrite IH.
Qed.


(** ** [linkInjections] *)

Lemma link_one_get (st : Highlighter.Statics) scopeName inj aff h :
  JsMap.get (fst (Highlighter.link_one st scopeName (inj, aff) h)) h
  = Some (JsSet.add (hosted inj h) scopeName).
Proof.
  unfold Highlighter.link_one, hosted. cbn [fst].
  destruct (JsMap.get inj h); apply JsMap_get_set_same.
Qed.

Lemma link_one_get_other (st : Highlighter.Statics) scopeName inj aff h h' :
  h <> h' ->
  JsMap.get (fst (Highlighter.link_one st scopeName (inj, aff) h)) h'
  = JsMap.get inj h'.
Proof.
  intros Hne. unfold Highlighter.link_one. cbn [fst].
  destruct (JsMap.get inj h); now apply JsMap_get_set_other.
Qed.

Lemma link_fold_injections (st : Highlighter.Statics) scopeName hosts :
  forall inj aff,
    let inj' := fst (fold_left (Highlighter.link_one st scopeName) hosts
                       (inj, aff)) in
    (forall h, In h hosts ->
       JsMap.get inj' h = Some (JsSet.add (hosted inj h) scopeName))
    /\ (forall h, ~ In h hosts -> JsMap.get inj' h = JsMap.get inj h).
Proof.
  induction hosts as [|h0 r IH]; intros inj aff; cbn [fold_left].
  - split; [intros h [] | reflexivity].
  - destruct (Highlighter.link_one st scopeName (inj, aff) h0)
      as [inj1 aff1] eqn:E.
    assert (E1 : inj1 = fst (Highlighter.link_one st scopeName (inj, aff) h0))
      by now rewrite E.
    destruct (IH inj1 aff1) as [Hin Hout]. cbv zeta. split.
    + intros h Hh. destruct (in_dec string_dec h r) as [Hr|Hr].
      * rewrite (Hin h Hr). f_equal. unfold hosted at 1.
        destruct (string_dec h0 h) as [->|Hne].
        -- rewrite E1, link_one_get. apply JsSet_add_add.
        -- rewrite E1, link_one_get_other by exact Hne. reflexivity.
      * destruct Hh as [->|Hh]; [|contradiction].
        rewrite (Hout h Hr), E1. apply link_one_get.
    + intros h Hh. rewrite Hout by (intros Hr; apply Hh; now right).
      rewrite E1. apply link_one_get_other. intros ->. apply Hh. now left.
Qed.

Lemma note_affected_spec (st : Highlighter.Statics) aff scope :
  (NoDup aff -> NoDup (Highlighter.note_affected st aff scope))
  /\ forall l, In l (Highlighter.note_affected st aff scope) <->
               In l aff
               \/ JsMap.get (Highlighter.scopeNameToLanguageId st) scope
                  = Some l.
Proof.
  unfold Highlighter.note_affected.
  destruct (JsMap.get (Highlighter.scopeNameToLanguageId st) scope) as [l0|].
  - split; [apply JsSet_add_NoDup|]. intros l. rewrite JsSet_In_add.
    split; (intros [H|H]; [now left | right; congruence]).
  - split; [auto|]. intros l. split; [auto | intros [H|H]; [exact H | discriminate]].
Qed.





(** ** [unlinkInjections] after [linkInjections] *)

(** C1. What the code does where the claim expects the injection to be
    removed: [unlinkInjections] first asks whether [scopeName] is a key of
    the host-to-injections map.  After [linkInjections(s, [h])] with [s]
    different from [h] and not itself a host, it is not, so the call returns
    [undefined] whatever host list it is given, changes nothing, keeps the
    engine instance, and [h] still carries the injection. *)
Theorem unlinkInjections_skips_linked_scope :
  forall (st : Highlighter.Statics) (s h : string) (unInjectFrom : JsValue),
    s <> h ->
    JsMap.has (Highlighter.scopeNameToInjections st) s = false ->
    let st1 := snd (Highlighter.linkInjections s (JArray [JString h]) st) in
    Highlighter.unlinkInjections s unInjectFrom st1 = (Normal None, st1)
    /\ JsSet.has (hosted (Highlighter.scopeNameToInjections st1) h) s = true.
Proof.
  intros st s h unInjectFrom Hne Hnot st1.
  assert (Hh : JsMap.get (Highlighter.scopeNameToInjections st1) h
               = Some (JsSet.add
                         (hosted (Highlighter.scopeNameToInjections st) h) s)).
  { subst st1. unfold Highlighter.linkInjections.
    cbn [string_array every_string fold_left].
    pose proof (link_one_get st s (Highlighter.scopeNameToInjections st)
                  JsSet.empty h) as H.
    destruct (Highlighter.link_one st s _ h) as [inj aff]. exact H. }
  assert (Hs : JsMap.get (Highlighter.scopeNameToInjections st1) s
               = JsMap.get (Highlighter.scopeNameToInjections st) s).
  { subst st1. unfold Highlighter.linkInjections.
    cbn [string_array every_string fold_left].
    pose proof (link_one_get_other st s (Highlighter.scopeNameToInjections st)
                  JsSet.empty h s (not_eq_sym Hne)) as H.
    destruct (Highlighter.link_one st s _ h) as [inj aff]. exact H. }
  split.
  - unfold Highlighter.unlinkInjections, JsMap.has. rewrite Hs.
    unfold JsMap.has in Hnot.
    destruct (JsMap.get (Highlighter.scopeNameToInjections st) s);
      [discriminate | reflexivity].
  - unfold hosted at 1. rewrite Hh. apply JsSet_has_add_same.
Qed.

Lemma unlinkInjections_skips_linked_scope_witness :
  let st1 := snd (Highlighter.linkInjections "styled"
                    (JArray [JString "source.js"]) js_registry) in
  Highlighter.unlinkInjections "styled" (JArray [JString "source.js"]) st1
  = (Normal None, st1)
  /\ Highlighter.getInjections st1 "source.js" = Some ["styled"].
Proof.
  split.
  - apply (unlinkInjections_skips_linked_scope js_registry "styled"
             "source.js" (JArray [JString "source.js"])).
    + discriminate.
    + reflexivity.
  - reflexivity.
Defined.

(** The branch behind the guard does remove the injection: it is reached
    when the injected scope happens to be a host itself. *)
Example unlinkInjections_when_scope_is_a_host :
  let st1 := snd (Highlighter.linkInjections "styled"
                    (JArray [JString "source.js"; JString "styled"])
                    js_registry) in
  let r := Highlighter.unlinkInjections "styled"
             (JArray [JString "source.js"]) st1 in
  fst r = Normal (Some ["javascript"])
  /\ Highlighter.getInjections (snd r) "source.js" = Some []
  /\ Highlighter.registry (snd r) = None.
Proof. vm_compute. repeat split; reflexivity. Qed.

(** ** The rebind queue *)

(** Two rapid requests for one editor, run from the start: the second call
    cancels the running attempt, resolves the first promise to [false] and
    moves the editor to the tail; but when the cancelled attempt ends,
    [proceed] deletes the editor's new resolver and shifts the re-queued
    entry away.  No mode is ever defined, the queue is empty and idle, and
    the second promise is left pending with nothing that could resolve it. *)
Example second_rapid_request_is_lost :
  let w := Index.run rapid_rebinds one_editor in
  Index.defineMode_calls w = []
  /\ Index.promises w = [Some false; None]
  /\ Index.queue w = []
  /\ Index.resolverCallbacks w = []
  /\ Index.currentActivation w = None
  /\ Index.parked w = None
  /\ Index.tokenizer_ready w = w
  /\ Index.resume w = w.
Proof. vm_compute. repeat split; reflexivity. Qed.

(** Run alone, a request is served: one mode defined, the promise [true]. *)
Example single_request_is_served :
  let w := Index.run [Index.SafeUpdateCM 0; Index.TokenizerReady; Index.Resume]
             one_editor in
  Index.defineMode_calls w = [Index.mkMode "javascript" "default"]
  /\ Index.promises w = [Some true]
  /\ Index.queue w = [].
Proof. vm_compute. repeat split; reflexivity. Qed.

(** A second request for an editor that waits in the queue adds no queue
    entry, but it gets a promise of its own (number 2) and replaces the
    resolver: the earlier promise (number 1) is never resolved. *)
Example queued_request_replaces_resolver :
  let w1 := Index.run [Index.SafeUpdateCM 0; Index.SafeUpdateCM 1]
              (Index.setOptions 1 "typescript" "default" one_editor) in
  let r := Index.safeUpdateCM 1 w1 in
  let w := Index.run queued_twice
             (Index.setOptions 1 "typescript" "default" one_editor) in
  Index.queue w1 = [0; 1]
  /\ fst r = Normal 2
  /\ Index.queue (snd r) = [0; 1]
  /\ Index.resolverCallbacks (snd r) = [(1, 2); (0, 0)]
  /\ Index.promises w = [Some true; None; Some true]
  /\ Index.queue w = [] /\ Index.currentActivation w = None.
Proof. vm_compute. repeat split; reflexivity. Qed.

(** ** The two scope-stack loops *)









Example number_toString_examples :
  Highlighter.number_toString 7 = "7"
  /\ Highlighter.number_toString 12 = "12".
Proof. split; reflexivity. Qed.

Example themed_innermost_first :
  Highlighter.tmScopeToTmThemeToken keyword_theme
    ["source.js"; "keyword.control.js"; "punctuation.js"]
  = Some (Normal (Some "tm-5 em"), [2%Z; 1%Z]).
Proof. reflexivity. Qed.





(** ** The tokenizer closure *)

(** With one turn of fuel per scope and one to spare, the loops finish on
    every stack, empty or not, whatever the cache holds. *)
Lemma tmScopeToCmToken_loop_total (stack : list string) :
  forall (fuel : nat) (i : Z) (cache : TmToCm.LRU),
    0 < fuel -> (i < Z.of_nat fuel)%Z ->
    exists r, Highlighter.tmScopeToCmToken_loop fuel stack i cache = Some r.
Proof.
  induction fuel as [|fuel' IH]; intros i cache Hpos Hi; [lia|].
  cbn [Highlighter.tmScopeToCmToken_loop].
  destruct (TmToCm.tmScopeToCmToken _ cache) as [[v|e] c1]; [|eauto].
  destruct (Highlighter.is_null v); cbn [andb]; [|eauto].
  destruct (Z.leb_spec 0 (i - 1)); [|eauto].
  destruct (IH (i - 1)%Z c1 ltac:(lia) ltac:(lia)) as [[[r c2] reads] ->].
  eauto.
Qed.

Lemma tmScopeToTmThemeToken_loop_total (th : Highlighter.Theme)
    (stack : list string) :
  forall (fuel : nat) (i : Z) (cmToken : option string),
    0 < fuel -> (i < Z.of_nat fuel)%Z ->
    exists r,
      Highlighter.tmScopeToTmThemeToken_loop th fuel stack i cmToken = Some r.
Proof.
  induction fuel as [|fuel' IH]; intros i cmToken Hpos Hi; [lia|].
  cbn [Highlighter.tmScopeToTmThemeToken_loop].
  destruct (Highlighter.theme_match_js th _) as [[rule others]|e]; [|eauto].
  match goal with
  | |- context [Highlighter.is_null ?c] => destruct (Highlighter.is_null c)
  end; cbn [andb]; [|eauto].
  destruct (Z.leb_spec 0 (i - 1)); [|eauto].
  match goal with
  | |- context [Highlighter.tmScopeToTmThemeToken_loop th fuel' stack _ ?c] =>
      destruct (IH (i - 1)%Z c ltac:(lia) ltac:(lia)) as [[r reads] ->]
  end.
  eauto.
Qed.

Lemma classify_scopes_total (self : Highlighter.t) (stack : list string)
    (cache : TmToCm.LRU) :
  exists cls cache',
    Highlighter.classify_scopes self stack cache = Some (cls, cache').
Proof.
  unfold Highlighter.classify_scopes. destruct (Highlighter.theme self) as [th|].
  - unfold Highlighter.tmScopeToTmThemeToken.
    destruct (tmScopeToTmThemeToken_loop_total th stack (S (length stack))
                (Z.of_nat (length stack) - 1)%Z None ltac:(lia) ltac:(lia))
      as [[r reads] ->].
    eauto.
  - unfold Highlighter.tmScopeToCmToken.
    destruct (tmScopeToCmToken_loop_total stack (S (length stack))
                (Z.of_nat (length stack) - 1)%Z cache ltac:(lia) ltac:(lia))
      as [[[[v|e] c] reads] ->]; eauto.
Qed.

(** Where the eating loop leaves the stream: at the smaller of the end
    offset and the line's length, unless it was already past that. *)
Lemma eat_loop_pos (endIndex : nat) :
  forall (turns : nat) (stream : Highlighter.StringStream),
    String.length (Highlighter.string_ stream) - Highlighter.pos stream
      <= turns ->
    Highlighter.eat_loop turns endIndex stream
    = Highlighter.mkStream
        (Nat.max (Highlighter.pos stream)
           (Nat.min endIndex (String.length (Highlighter.string_ stream))))
        (Highlighter.string_ stream).
Proof.
  induction turns as [|turns' IH]; intros [p line];
    cbn [Highlighter.pos Highlighter.string_ Highlighter.eat_loop]; intros H.
  - f_equal. lia.
  - destruct (Nat.ltb_spec p (String.length line));
      destruct (Nat.ltb_spec p endIndex); cbn [andb]; try (f_equal; lia).
    rewrite IH; cbn [Highlighter.pos Highlighter.string_]; [f_equal|]; lia.
Qed.

Lemma eatWhile_before_pos (endIndex : nat) (stream : Highlighter.StringStream) :
  Highlighter.eatWhile_before endIndex stream
  = Highlighter.mkStream
      (Nat.max (Highlighter.pos stream)
         (Nat.min endIndex (String.length (Highlighter.string_ stream))))
      (Highlighter.string_ stream).
Proof. unfold Highlighter.eatWhile_before. apply eat_loop_pos. lia. Qed.

(** C4, as stated, fails: a token that runs over the line break ends one
    past the line, and the stream cannot be advanced that far. *)
Lemma stream_stops_at_end_of_line :
  ~ (forall self g stream state cache call t rest,
        Highlighter.pos stream = 0 ->
        tokens (tokenizeLine g (Highlighter.string_ stream)
                  (Highlighter.ruleStack state)) = t :: rest ->
        Highlighter.tokenizer self (Some g) stream state cache = Some call ->
        Highlighter.pos (Highlighter.stream_after call) = endIndex t).
Proof.
  intros H.
  specialize (H (Highlighter.mk None) through_newline_grammar
                (Highlighter.mkStream 0 "// x")
                (Highlighter.mkState [] None) TmToCm.cache_empty).
  specialize (H _ _ _ eq_refl eq_refl eq_refl).
  vm_compute in H. discriminate H.
Qed.

(** C4, amended. Called at stream position 0, the closure tokenizes the
    whole line with the carried rule stack and keeps the token list and the
    new rule stack in the state; every call (that one included) then takes
    one token off the kept list, moves the stream forward to the token's end
    offset or to the end of the line, whichever comes first, and returns the
    token's classification.  Once the list is empty it moves the stream to
    the end of the line and returns [null].  Away from position 0 the kept
    list is used as it is, the rule stack is not touched, and a state
    without a list makes the call fail. *)
Theorem tokenizer_protocol :
  forall (self : Highlighter.t) (g : IGrammar)
         (stream : Highlighter.StringStream)
         (state : Highlighter.IHighlighterState) (cache : TmToCm.LRU),
    let line := Highlighter.string_ stream in
    let at_start := Nat.eqb (Highlighter.pos stream) 0 in
    let result := tokenizeLine g line (Highlighter.ruleStack state) in
    let stack :=
      if at_start then lr_ruleStack result else Highlighter.ruleStack state in
    let kept :=
      if at_start then Some (tokens result)
      else Highlighter.tokensCache state in
    match kept with
    | Some (nextToken :: rest) =>
        exists cls cache',
          Highlighter.classify_scopes self (scopes nextToken) cache
          = Some (cls, cache')
          /\ Highlighter.tokenizer self (Some g) stream state cache
             = Some (Highlighter.mkCall cls
                       (Highlighter.mkStream
                          (Nat.max (Highlighter.pos stream)
                             (Nat.min (endIndex nextToken)
                                (String.length line)))
                          line)
                       (Highlighter.mkState stack (Some rest))
                       cache')
    | Some [] =>
        Highlighter.tokenizer self (Some g) stream state cache
        = Some (Highlighter.mkCall (Normal None)
                  (Highlighter.mkStream (String.length line) line)
                  (Highlighter.mkState stack (Some []))
                  cache)
    | None =>
        exists msg,
          Highlighter.tokenizer self (Some g) stream state cache
          = Some (Highlighter.mkCall (Throw (TypeError msg)) stream state
                    cache)
    end.
Proof.
  intros self g [p line] [rs kept0] cache.
  cbn [Highlighter.string_ Highlighter.pos Highlighter.ruleStack
       Highlighter.tokensCache].
  unfold Highlighter.tokenizer.
  cbn [Highlighter.string_ Highlighter.pos Highlighter.ruleStack
       Highlighter.tokensCache].
  destruct (Nat.eqb p 0) eqn:Hp; cbv zeta;
    cbn [Highlighter.tokensCache Highlighter.ruleStack].
  - destruct (tokens (tokenizeLine g line rs)) as [|t rest]; [reflexivity|].
    destruct (classify_scopes_total self (scopes t) cache)
      as (cls & cache' & Hcls).
    exists cls, cache'. split; [exact Hcls|].
    rewrite Hcls, eatWhile_before_pos. reflexivity.
  - destruct kept0 as [[|t rest]|]; [reflexivity | | eexists; reflexivity].
    destruct (classify_scopes_total self (scopes t) cache)
      as (cls & cache' & Hcls).
    exists cls, cache'. split; [exact Hcls|].
    rewrite Hcls, eatWhile_before_pos. reflexivity.
Qed.

(** A line of two tokens: the two classifications in order, then [null]. *)
Example two_token_line :
  let tok := Highlighter.tokenizer (Highlighter.mk None)
               (Some two_token_grammar) in
  exists c1 c2 c3,
    tok (Highlighter.mkStream 0 "let x") (Highlighter.mkState [] None)
      TmToCm.cache_empty
    = Some c1
    /\ Highlighter.returned c1 = Normal (Some "keyword")
    /\ Highlighter.pos (Highlighter.stream_after c1) = 3
    /\ Highlighter.ruleStack (Highlighter.state_after c1) = [1]
    /\ tok (Highlighter.stream_after c1) (Highlighter.state_after c1)
         (Highlighter.cache_after_call c1)
       = Some c2
    /\ Highlighter.returned c2 = Normal (Some "def")
    /\ Highlighter.pos (Highlighter.stream_after c2) = 5
    /\ tok (Highlighter.stream_after c2) (Highlighter.state_after c2)
         (Highlighter.cache_after_call c2)
       = Some c3
    /\ Highlighter.returned c3 = Normal None
    /\ Highlighter.pos (Highlighter.stream_after c3) = 5
    /\ Highlighter.ruleStack (Highlighter.state_after c3) = [1].
Proof.
  cbv zeta. eexists _, _, _.
  split; [vm_compute; reflexivity|].
  do 3 (split; [reflexivity|]).
  split; [vm_compute; reflexivity|].
  do 2 (split; [reflexivity|]).
  split; [vm_compute; reflexivity|].
  repeat split; reflexivity.
Qed.

(** ** The rebind queue on any world *)

Lemma WeakMap_get_delete {V : Type} (m : WeakMap.t V) (k : Editor) :
  WeakMap.get (WeakMap.delete m k) k = None.
Proof.
  induction m as [|[k0 v0] r IH]; cbn [WeakMap.delete WeakMap.get];
    [reflexivity|].
  destruct (Nat.eqb k0 k) eqn:E; [exact IH|].
  cbn [WeakMap.get]. now rewrite E.
Qed.

Lemma resolve_promise_length (ps : list (option bool)) (p : nat) (v : bool) :
  length (Index.resolve_promise ps p v) = length ps.
Proof.
  revert p. induction ps as [|[b|] r IH]; intros [|p];
    cbn [Index.resolve_promise length]; try reflexivity; now rewrite IH.
Qed.

Lemma resolve_promise_other (ps : list (option bool)) (p n : nat) (v : bool) :
  n <> p -> nth_error (Index.resolve_promise ps p v) n = nth_error ps n.
Proof.
  revert p n. induction ps as [|[b|] r IH]; intros [|p] [|n] Hne;
    cbn [Index.resolve_promise nth_error]; try reflexivity; try lia;
    apply IH; lia.
Qed.

Lemma nth_error_fresh (ps : list (option bool)) :
  nth_error (ps ++ [None]) (length ps) = Some None.
Proof. induction ps as [|x r IH]; [reflexivity | exact IH]. Qed.

(** C3. What the code does on a second request for the editor being served.
    Take any world in which editor [cm] is alone in the queue, its attempt
    is waiting for the tokenizer, [proceed] is parked on it with an issued
    resolver, and the map holds a resolver for [cm].  A further
    [safeUpdateCM(cm)] hands out a fresh promise; once the cancelled attempt
    has ended and [proceed] has resumed, the queue is empty and idle, no
    mode has been defined, [cm] has no resolver any more, and the fresh
    promise is still pending: the second request is dropped rather than
    applied. *)
Theorem second_request_for_active_editor_is_dropped :
  forall (w : Index.World) (cm : Editor) (a : Index.Activation)
         (languageId highlighter : string) (p p' : nat),
    Index.queue w = [cm] ->
    Index.currentActivation w = Some a ->
    Index.act_phase a = Index.AwaitingTokenizer languageId highlighter ->
    Index.parked w = Some (Index.mkParked cm (Some p)) ->
    WeakMap.get (Index.resolverCallbacks w) cm = Some p' ->
    p < length (Index.promises w) ->
    let second := Index.safeUpdateCM cm w in
    let w' := Index.resume (Index.tokenizer_ready (snd second)) in
    fst second = Normal (length (Index.promises w))
    /\ Index.queue (snd second) = [cm]
    /\ Index.queue w' = []
    /\ Index.currentActivation w' = None
    /\ Index.parked w' = None
    /\ WeakMap.get (Index.resolverCallbacks w') cm = None
    /\ Index.defineMode_calls w' = Index.defineMode_calls w
    /\ nth_error (Index.promises w') (length (Index.promises w)) = Some None.
Proof.
  intros [opts ths st m2t rec nodes head defs q cbs act pk ps errs] cm
    [acm phase cancelled] languageId highlighter p p'
    Hq Hact Hphase Hpk Hres Hp.
  cbn [Index.queue Index.currentActivation Index.act_phase Index.parked
       Index.resolverCallbacks Index.promises] in Hq, Hact, Hphase, Hpk,
       Hres, Hp.
  subst q act phase pk.
  unfold Index.safeUpdateCM, Index.supersede_active.
  cbn [Index.queue Index.currentActivation Index.resolverCallbacks].
  rewrite Hres, Nat.eqb_refl.
  unfold Index.not_queued, Index.shift, Index.cancel.
  cbn [tl app existsb Index.act_phase Index.act_cm Index.with_queue
       Index.queue Index.currentActivation Index.promises
       Index.resolverCallbacks Index.parked Index.uncaught
       Index.options Index.themedHighlighters Index.statics
       Index.cmModeToTheme Index.cmThemeRecord Index.tmThemeStyleNodes
       Index.document_head Index.defineMode_calls].
  rewrite Nat.eqb_refl. cbn [orb negb fst snd].
  rewrite resolve_promise_length.
  unfold Index.tokenizer_ready.
  cbn [Index.with_queue Index.queue Index.currentActivation Index.promises
       Index.resolverCallbacks Index.parked Index.uncaught Index.act_phase
       Index.canceled Index.act_cm
       Index.options Index.themedHighlighters Index.statics
       Index.cmModeToTheme Index.cmThemeRecord Index.tmThemeStyleNodes
       Index.document_head Index.defineMode_calls].
  unfold Index.resume, Index.shift.
  cbn [Index.with_queue Index.queue Index.currentActivation Index.promises
       Index.resolverCallbacks Index.parked Index.uncaught Index.act_phase
       Index.canceled Index.act_cm Index.resolver Index.nextCM tl
       Index.proceed
       Index.options Index.themedHighlighters Index.statics
       Index.cmModeToTheme Index.cmThemeRecord Index.tmThemeStyleNodes
       Index.document_head Index.defineMode_calls].
  repeat split.
  - unfold WeakMap.set. cbn [WeakMap.delete]. rewrite Nat.eqb_refl.
    apply WeakMap_get_delete.
  - rewrite resolve_promise_other by lia.
    rewrite <- (resolve_promise_length ps p' false).
    apply nth_error_fresh.
Qed.

Lemma second_request_for_active_editor_is_dropped_witness :
  let w := Index.run [Index.SafeUpdateCM 0;
                      Index.SetOptions 0 "typescript" "default"] one_editor in
  let w' := Index.resume
              (Index.tokenizer_ready (snd (Index.safeUpdateCM 0 w))) in
  Index.queue w' = []
  /\ Index.defineMode_calls w' = []
  /\ nth_error (Index.promises w') 1 = Some None.
Proof.
  cbv zeta.
  destruct (second_request_for_active_editor_is_dropped
              (Index.run [Index.SafeUpdateCM 0;
                          Index.SetOptions 0 "typescript" "default"]
                 one_editor)
              0 (Index.mkActivation 0
                   (Index.AwaitingTokenizer "javascript" "default") false)
              "javascript" "default" 0 0)
    as (_ & _ & Hq & _ & _ & _ & Hd & Hp);
    try (vm_compute; reflexivity).
  split; [exact Hq | split; [exact Hd | exact Hp]].
Defined.

(** * Further properties of the registry *)

Lemma JsSet_delete_absent (l : JsSet.t) (x : string) :
  ~ In x l -> JsSet.delete l x = l.
Proof.
  induction l as [|y r IH]; cbn [JsSet.delete In]; [reflexivity|].
  intros H. destruct (String.eqb_spec y x) as [->|Hne]; [tauto|].
  rewrite IH; tauto.
Qed.

Lemma JsSet_delete_add (l : JsSet.t) (x : string) :
  ~ In x l -> JsSet.delete (JsSet.add l x) x = l.
Proof.
  induction l as [|y r IH]; cbn [JsSet.add JsSet.delete In].
  - now rewrite String.eqb_refl.
  - intros H. destruct (String.eqb_spec y x) as [->|Hne]; [tauto|].
    cbn [JsSet.delete]. destruct (String.eqb_spec y x); [contradiction|].
    rewrite IH; tauto.
Qed.

Lemma JsSet_delete_In (l : JsSet.t) (x y : string) :
  In y (JsSet.delete l x) -> In y l.
Proof.
  induction l as [|z r IH]; cbn [JsSet.delete In]; [tauto|].
  destruct (String.eqb z x); cbn [In]; tauto.
Qed.

Lemma JsSet_delete_gone (l : JsSet.t) (x : string) :
  NoDup l -> JsSet.has (JsSet.delete l x) x = false.
Proof.
  intros Hnd. apply not_true_is_false. rewrite JsSet_has_In.
  induction Hnd as [|y r Hy Hr IH]; cbn [JsSet.delete]; [tauto|].
  destruct (String.eqb_spec y x) as [->|Hne]; [exact Hy|].
  cbn [In]. tauto.
Qed.

Lemma JsSet_has_false (l : JsSet.t) (x : string) :
  JsSet.has l x = false <-> ~ In x l.
Proof.
  rewrite <- JsSet_has_In. destruct (JsSet.has l x); split; congruence.
Qed.

Lemma includes_In (hosts : list string) (h : string) :
  includes hosts h = true <-> In h hosts.
Proof.
  unfold includes. rewrite existsb_exists. split.
  - intros (x & Hx & E). apply String.eqb_eq in E. now subst.
  - intros H. exists h. split; [exact H | apply String.eqb_refl].
Qed.

Lemma JsMap_set_same_value {V : Type} (m : JsMap.t V) (k : string) (v : V) :
  JsMap.get m k = Some v -> JsMap.set m k v = m.
Proof.
  induction m as [|[k0 v0] r IH]; cbn [JsMap.get JsMap.set]; [discriminate|].
  destruct (String.eqb k0 k); [now intros [= ->] | intros H; now rewrite IH].
Qed.

(** ** [unlinkInjections] behind its guard *)

Lemma unlink_each_entries (st : Highlighter.Statics) scopeName selected :
  forall entries aff,
    fst (Highlighter.unlink_each st scopeName selected entries aff)
    = map (unlink_entry scopeName selected) entries.
Proof.
  induction entries as [|[h l] r IH]; intros aff;
    cbn [Highlighter.unlink_each map]; [reflexivity|].
  unfold unlink_entry at 1. cbn [fst snd].
  destruct (selected h && JsSet.has l scopeName).
  - specialize (IH (Highlighter.note_affected st aff h)).
    destruct (Highlighter.unlink_each st scopeName selected r _).
    cbn [fst] in *. now rewrite IH.
  - specialize (IH aff).
    destruct (Highlighter.unlink_each st scopeName selected r _).
    cbn [fst] in *. now rewrite IH.
Qed.

Lemma unlink_entries_get scopeName selected (m : JsMap.t JsSet.t) (h : string) :
  JsMap.get (map (unlink_entry scopeName selected) m) h
  = option_map (fun l => if selected h then JsSet.delete l scopeName else l)
      (JsMap.get m h).
Proof.
  induction m as [|[k l] r IH]; cbn [map JsMap.get unlink_entry fst snd];
    [reflexivity|].
  destruct (String.eqb_spec k h) as [->|Hne]; [|exact IH].
  cbn [option_map]. f_equal. destruct (selected h); cbn [andb]; [|reflexivity].
  destruct (JsSet.has l scopeName) eqn:E; [reflexivity|].
  symmetry. apply JsSet_delete_absent. now apply JsSet_has_false.
Qed.

Lemma unlink_entries_keys scopeName selected (m : JsMap.t JsSet.t) :
  JsMap.keys (map (unlink_entry scopeName selected) m) = JsMap.keys m.
Proof.
  unfold JsMap.keys. rewrite map_map. apply map_ext. now intros [k l].
Qed.

Lemma unlink_each_affected (st : Highlighter.Statics) scopeName selected :
  forall entries aff,
    let aff' :=
      snd (Highlighter.unlink_each st scopeName selected entries aff) in
    (NoDup aff -> NoDup aff')
    /\ forall lang, In lang aff' <->
         In lang aff
         \/ exists h l, In (h, l) entries /\ selected h = true
              /\ JsSet.has l scopeName = true
              /\ JsMap.get (Highlighter.scopeNameToLanguageId st) h
                 = Some lang.
Proof.
  induction entries as [|[h l] r IH]; intros aff;
    cbn [Highlighter.unlink_each].
  - cbn [snd]. split; [auto|]. intros lang. split; [auto|].
    intros [H|(h & l & [] & _)]. exact H.
  - destruct (selected h && JsSet.has l scopeName) eqn:E.
    + apply andb_prop in E. destruct E as [Es Eh].
      specialize (IH (Highlighter.note_affected st aff h)).
      destruct (Highlighter.unlink_each st scopeName selected r _)
        as [r' aff1].
      cbn [snd] in *. destruct IH as [Hnd Hin].
      destruct (note_affected_spec st aff h) as [Hnd0 Hin0].
      split; [auto|]. intros lang. rewrite Hin, Hin0. split.
      * intros [[H|H]|(h' & l' & Hm & Hrest)].
        -- now left.
        -- right. exists h, l. repeat split; trivial. now left.
        -- right. exists h', l'. split; [now right | exact Hrest].
      * intros [H|(h' & l' & [[= <- <-]|Hm] & Hs & Hh & Hl)].
        -- now left; left.
        -- now left; right.
        -- right. exists h', l'. repeat split; trivial.
    + specialize (IH aff).
      destruct (Highlighter.unlink_each st scopeName selected r _)
        as [r' aff1].
      cbn [snd] in *. destruct IH as [Hnd Hin].
      split; [auto|]. intros lang. rewrite Hin. split.
      * intros [H|(h' & l' & Hm & Hrest)]; [now left|].
        right. exists h', l'. split; [now right | exact Hrest].
      * intros [H|(h' & l' & [[= <- <-]|Hm] & Hs & Hh & Hl)].
        -- now left.
        -- rewrite Hs, Hh in E. discriminate E.
        -- right. exists h', l'. repeat split; trivial.
Qed.

(** How [unlinkInjections] runs once its guard lets it through and the host
    list is acceptable. *)
Lemma unlinkInjections_run (st : Highlighter.Statics) (scopeName : string)
    (injections : JsValue) :
  JsMap.has (Highlighter.scopeNameToInjections st) scopeName = true ->
  unlink_accepts injections ->
  Highlighter.unlinkInjections scopeName injections st
  = (let r := Highlighter.unlink_each st scopeName
                (unlink_selects injections)
                (Highlighter.scopeNameToInjections st) JsSet.empty in
     (Normal (Some (snd r)),
      Highlighter.with_registry (Highlighter.with_injections st (fst r))
        None)).
Proof.
  intros Hguard Hacc. unfold Highlighter.unlinkInjections. rewrite Hguard.
  cbn [negb]. unfold unlink_selects.
  destruct (truthy injections) eqn:Et; cbn [negb].
  - destruct Hacc as [Hf|(hosts & Hh)]; [congruence|]. rewrite Hh.
    rewrite (surjective_pairing
               (Highlighter.unlink_each st scopeName (includes hosts)
                  (Highlighter.scopeNameToInjections st) JsSet.empty)).
    reflexivity.
  - rewrite (surjective_pairing
               (Highlighter.unlink_each st scopeName (fun _ => true)
                  (Highlighter.scopeNameToInjections st) JsSet.empty)).
    reflexivity.
Qed.

(** X1. Once [scopeName] is a key of the host map and the host list is
    acceptable, [unlinkInjections] succeeds, drops the engine, leaves the
    other maps and the set of host keys alone, and replaces the injection
    set of each selected host by that set without [scopeName]; hosts that
    are not selected keep their sets.  No host entry is ever removed, so a
    host may be left with an empty set.  Sets being duplicate-free, no
    selected host carries [scopeName] afterwards. *)
Theorem unlinkInjections_effect :
  forall (st : Highlighter.Statics) (scopeName : string) (injections : JsValue),
    JsMap.has (Highlighter.scopeNameToInjections st) scopeName = true ->
    unlink_accepts injections ->
    let r := Highlighter.unlinkInjections scopeName injections st in
    let st' := snd r in
    (exists languages, fst r = Normal (Some languages))
    /\ Highlighter.registry st' = None
    /\ Highlighter.scopeNameToRawGrammars st'
       = Highlighter.scopeNameToRawGrammars st
    /\ Highlighter.scopeNameToLanguageId st'
       = Highlighter.scopeNameToLanguageId st
    /\ Highlighter.languageIdToScopeName st'
       = Highlighter.languageIdToScopeName st
    /\ JsMap.keys (Highlighter.scopeNameToInjections st')
       = JsMap.keys (Highlighter.scopeNameToInjections st)
    /\ (forall h,
          JsMap.get (Highlighter.scopeNameToInjections st') h
          = option_map
              (fun l => if unlink_selects injections h
                        then JsSet.delete l scopeName else l)
              (JsMap.get (Highlighter.scopeNameToInjections st) h))
    /\ (sets_distinct (Highlighter.scopeNameToInjections st) ->
        forall h, unlink_selects injections h = true ->
          JsSet.has (hosted (Highlighter.scopeNameToInjections st') h)
            scopeName = false).
Proof.
  intros st scopeName injections Hguard Hacc r st'. subst r st'.
  rewrite (unlinkInjections_run st scopeName injections Hguard Hacc).
  cbv zeta. rewrite unlink_each_entries.
  cbn [fst snd Highlighter.with_registry Highlighter.with_injections
       Highlighter.registry Highlighter.scopeNameToRawGrammars
       Highlighter.scopeNameToLanguageId Highlighter.languageIdToScopeName
       Highlighter.scopeNameToInjections].
  split; [eauto|]. do 4 (split; [reflexivity|]).
  split; [apply unlink_entries_keys|].
  split; [intros h; apply unlink_entries_get|].
  intros Hsets h Hsel. unfold hosted. rewrite unlink_entries_get, Hsel.
  destruct (JsMap.get (Highlighter.scopeNameToInjections st) h) as [l|] eqn:E;
    cbn [option_map]; [|reflexivity].
  apply JsSet_delete_gone. exact (Hsets h l E).
Qed.

Lemma unlinkInjections_effect_witness :
  Highlighter.getInjections
    (snd (Highlighter.unlinkInjections "styled" JUndefined styled_registry))
    "source.js"
  = Some [].
Proof.
  pose proof (unlinkInjections_effect styled_registry "styled" JUndefined
                eq_refl (or_introl eq_refl)) as H.
  cbv zeta in H. destruct H as (_ & _ & _ & _ & _ & _ & Hget & _).
  unfold Highlighter.getInjections. rewrite (Hget "source.js"). reflexivity.
Defined.

(** X2. Under the same conditions the array returned by [unlinkInjections]
    holds, without repetition, exactly the language ids that the
    scope-to-language map gives for the selected hosts whose set contained
    [scopeName]. *)
Theorem unlinkInjections_languages :
  forall (st : Highlighter.Statics) (scopeName : string) (injections : JsValue),
    JsMap.has (Highlighter.scopeNameToInjections st) scopeName = true ->
    unlink_accepts injections ->
    exists languages,
      fst (Highlighter.unlinkInjections scopeName injections st)
      = Normal (Some languages)
      /\ NoDup languages
      /\ forall lang, In lang languages <->
           exists h l,
             In (h, l) (Highlighter.scopeNameToInjections st)
             /\ unlink_selects injections h = true
             /\ JsSet.has l scopeName = true
             /\ JsMap.get (Highlighter.scopeNameToLanguageId st) h = Some lang.
Proof.
  intros st scopeName injections Hguard Hacc.
  rewrite (unlinkInjections_run st scopeName injections Hguard Hacc).
  cbv zeta. cbn [fst].
  destruct (unlink_each_affected st scopeName (unlink_selects injections)
              (Highlighter.scopeNameToInjections st) JsSet.empty)
    as [Hnd Hin].
  eexists. split; [reflexivity|]. split; [apply Hnd; constructor|].
  intros lang. rewrite Hin. split; [intros [[]|H]; exact H | now right].
Qed.

Lemma unlinkInjections_languages_witness :
  exists languages,
    fst (Highlighter.unlinkInjections "styled"
           (JArray [JString "source.js"]) styled_registry)
    = Normal (Some languages)
    /\ NoDup languages.
Proof.
  destruct (unlinkInjections_languages styled_registry "styled"
              (JArray [JString "source.js"]) eq_refl
              (or_intror (ex_intro _ ["source.js"] eq_refl)))
    as (languages & H & Hnd & _).
  exists languages. split; [exact H | exact Hnd].
Defined.

(** ** [linkInjections] and [unlinkInjections] together *)

Lemma linkInjections_strings (st : Highlighter.Statics) scopeName hosts :
  Highlighter.linkInjections scopeName (JArray (map JString hosts)) st
  = (let r := fold_left (Highlighter.link_one st scopeName) hosts
                (Highlighter.scopeNameToInjections st, JsSet.empty) in
     (Normal (snd r),
      Highlighter.with_registry (Highlighter.with_injections st (fst r))
        None)).
Proof.
  unfold Highlighter.linkInjections. rewrite string_array_of_strings.
  rewrite (surjective_pairing
             (fold_left (Highlighter.link_one st scopeName) hosts
                (Highlighter.scopeNameToInjections st, JsSet.empty))).
  reflexivity.
Qed.

(** X3. The round trip where the guard of [unlinkInjections] lets it
    through, that is when the injected scope is a host key itself (or is
    injected into itself): after [linkInjections(s, [h])] of a scope [h] did
    not carry yet, [unlinkInjections(s, [h])] succeeds and gives [h] back the
    set it had -- the empty set if it had none, since the entry made by the
    link stays -- and every other host keeps its set. *)
Theorem link_then_unlink_restores :
  forall (st : Highlighter.Statics) (s h : string),
    JsMap.has (Highlighter.scopeNameToInjections st) s = true \/ s = h ->
    ~ In s (hosted (Highlighter.scopeNameToInjections st) h) ->
    let st1 := snd (Highlighter.linkInjections s (JArray [JString h]) st) in
    let r := Highlighter.unlinkInjections s (JArray [JString h]) st1 in
    (exists languages, fst r = Normal (Some languages))
    /\ JsMap.get (Highlighter.scopeNameToInjections (snd r)) h
       = Some (hosted (Highlighter.scopeNameToInjections st) h)
    /\ (forall h', h' <> h ->
          JsMap.get (Highlighter.scopeNameToInjections (snd r)) h'
          = JsMap.get (Highlighter.scopeNameToInjections st) h').
Proof.
  intros st s h Hhost Hnew st1 r.
  assert (Hinj1 : Highlighter.scopeNameToInjections st1
                  = fst (Highlighter.link_one st s
                           (Highlighter.scopeNameToInjections st, JsSet.empty)
                           h)).
  { subst st1. change (JArray [JString h]) with (JArray (map JString [h])).
    rewrite (linkInjections_strings st s [h]). reflexivity. }
  assert (Hguard : JsMap.has (Highlighter.scopeNameToInjections st1) s = true).
  { unfold JsMap.has. rewrite Hinj1.
    destruct (string_dec h s) as [->|Hne].
    - now rewrite link_one_get.
    - rewrite link_one_get_other by exact Hne.
      destruct Hhost as [H|H]; [exact H | congruence]. }
  assert (Hacc : unlink_accepts (JArray [JString h])).
  { right. exists [h]. reflexivity. }
  subst r. rewrite (unlinkInjections_run st1 s _ Hguard Hacc).
  cbv zeta. rewrite unlink_each_entries.
  cbn [fst snd Highlighter.with_registry Highlighter.with_injections
       Highlighter.scopeNameToInjections].
  split; [eauto|]. split.
  - rewrite unlink_entries_get, Hinj1, link_one_get.
    cbn [option_map unlink_selects truthy string_array every_string includes
         existsb].
    rewrite String.eqb_refl. cbn [orb]. f_equal.
    now apply JsSet_delete_add.
  - intros h' Hne. rewrite unlink_entries_get, Hinj1.
    rewrite link_one_get_other by (intros ->; now apply Hne).
    cbn [unlink_selects truthy string_array every_string includes existsb].
    destruct (String.eqb_spec h' h); [contradiction|]. cbn [orb].
    now destruct (JsMap.get (Highlighter.scopeNameToInjections st) h').
Qed.

Lemma link_then_unlink_restores_witness :
  Highlighter.getInjections
    (snd (Highlighter.unlinkInjections "styled"
            (JArray [JString "source.css"])
            (snd (Highlighter.linkInjections "styled"
                    (JArray [JString "source.css"]) styled_registry))))
    "source.css"
  = Some [].
Proof.
  destruct (link_then_unlink_restores styled_registry "styled" "source.css")
    as (_ & Hget & _).
  - now left.
  - intros [].
  - unfold Highlighter.getInjections. rewrite Hget. reflexivity.
Defined.

Lemma link_one_same_languages (st st' : Highlighter.Statics) scopeName acc h :
  Highlighter.scopeNameToLanguageId st' = Highlighter.scopeNameToLanguageId st ->
  Highlighter.link_one st' scopeName acc h
  = Highlighter.link_one st scopeName acc h.
Proof.
  intros E. destruct acc as [inj aff].
  unfold Highlighter.link_one, Highlighter.note_affected. now rewrite E.
Qed.

Lemma link_fold_same_languages (st st' : Highlighter.Statics) scopeName hosts :
  Highlighter.scopeNameToLanguageId st' = Highlighter.scopeNameToLanguageId st ->
  forall acc,
    fold_left (Highlighter.link_one st' scopeName) hosts acc
    = fold_left (Highlighter.link_one st scopeName) hosts acc.
Proof.
  intros E. induction hosts as [|h r IH]; intros acc; cbn [fold_left];
    [reflexivity|].
  now rewrite (link_one_same_languages st st' scopeName acc h E), IH.
Qed.

(** The languages collected do not depend on the injection map. *)
Lemma link_fold_languages_only (st : Highlighter.Statics) scopeName hosts :
  forall inj inj' aff,
    snd (fold_left (Highlighter.link_one st scopeName) hosts (inj, aff))
    = snd (fold_left (Highlighter.link_one st scopeName) hosts (inj', aff)).
Proof.
  induction hosts as [|h r IH]; intros inj inj' aff; cbn [fold_left];
    [reflexivity|].
  change (Highlighter.link_one st scopeName (inj, aff) h)
    with (fst (Highlighter.link_one st scopeName (inj, aff) h),
          Highlighter.note_affected st aff h).
  change (Highlighter.link_one st scopeName (inj', aff) h)
    with (fst (Highlighter.link_one st scopeName (inj', aff) h),
          Highlighter.note_affected st aff h).
  apply IH.
Qed.

(** Hosts that carry the scope already are left as they are. *)
Lemma link_fold_already_linked (st : Highlighter.Statics) scopeName hosts :
  forall (inj : JsMap.t JsSet.t) (aff : JsSet.t),
    (forall h, In h hosts ->
       exists l : JsSet.t, JsMap.get inj h = Some l /\ In scopeName l) ->
    fst (fold_left (Highlighter.link_one st scopeName) hosts (inj, aff)) = inj.
Proof.
  induction hosts as [|h r IH]; intros inj aff Hall; cbn [fold_left];
    [reflexivity|].
  destruct (Hall h (or_introl eq_refl)) as (l & Hl & Hin).
  assert (E : Highlighter.link_one st scopeName (inj, aff) h
              = (inj, Highlighter.note_affected st aff h)).
  { unfold Highlighter.link_one. rewrite Hl.
    rewrite (JsSet_add_present l scopeName Hin).
    now rewrite (JsMap_set_same_value _ _ _ Hl). }
  rewrite E. apply IH. intros h' Hh'. apply Hall. now right.
Qed.

(** X4. [linkInjections] is idempotent: repeating a link with the same
    scope and the same hosts returns the same languages and leaves the
    statics exactly as the first link left them. *)
Theorem linkInjections_idempotent :
  forall (st : Highlighter.Statics) (scopeName : string) (hosts : list string),
    let once :=
      Highlighter.linkInjections scopeName (JArray (map JString hosts)) st in
    Highlighter.linkInjections scopeName (JArray (map JString hosts))
      (snd once)
    = once.
Proof.
  intros st scopeName hosts once. subst once.
  rewrite !linkInjections_strings. cbv zeta. cbn [snd].
  set (r := fold_left (Highlighter.link_one st scopeName) hosts
              (Highlighter.scopeNameToInjections st, JsSet.empty)).
  set (st1 := Highlighter.with_registry
                (Highlighter.with_injections st (fst r)) None).
  rewrite (link_fold_same_languages st st1 scopeName hosts eq_refl).
  cbn [st1 Highlighter.with_registry Highlighter.with_injections
       Highlighter.scopeNameToInjections].
  assert (Hfst : fst (fold_left (Highlighter.link_one st scopeName) hosts
                        (fst r, JsSet.empty)) = fst r).
  { apply link_fold_already_linked. intros h Hh.
    destruct (link_fold_injections st scopeName hosts
                (Highlighter.scopeNameToInjections st) JsSet.empty)
      as [Hin _].
    fold r in Hin. cbv zeta in Hin. rewrite (Hin h Hh).
    eexists. split; [reflexivity|]. apply JsSet_In_add. now right. }
  assert (Hsnd : snd (fold_left (Highlighter.link_one st scopeName) hosts
                        (fst r, JsSet.empty)) = snd r).
  { apply link_fold_languages_only. }
  rewrite Hfst, Hsnd. reflexivity.
Qed.

(** What a deferred activation of a fresh language id does. *)
Lemma activateLanguage_defer
    (loadGrammar : Highlighter.Statics -> string -> Outcome (option IGrammar))
    (st : Highlighter.Statics) (scopeName languageId : string) :
  JsMap.has (Highlighter.scopeNameToRawGrammars st) scopeName = true ->
  JsMap.get (Highlighter.languageIdToScopeName st) languageId = None ->
  Highlighter.activateLanguage loadGrammar scopeName languageId defer st
  = (Settles (Fulfilled false),
     Highlighter.mkStatics (Highlighter.scopeNameToInjections st)
       (Highlighter.scopeNameToRawGrammars st)
       (JsMap.set (Highlighter.scopeNameToLanguageId st) scopeName languageId)
       (JsMap.set (Highlighter.languageIdToScopeName st) languageId scopeName)
       (Highlighter.registry st),
     []).
Proof.
  intros Hraw Hfresh. unfold Highlighter.activateLanguage.
  now rewrite Hraw, Hfresh.
Qed.

(** X5. Activating two languages for one scope keeps both language ids
    registered, but the scope-to-language map remembers only the later one:
    a link into that scope reports the later language alone. *)
Theorem second_language_hides_first :
  forall (loadGrammar : Highlighter.Statics -> string -> Outcome (option IGrammar))
         (st : Highlighter.Statics) (scopeName first second injected : string),
    JsMap.has (Highlighter.scopeNameToRawGrammars st) scopeName = true ->
    JsMap.get (Highlighter.languageIdToScopeName st) first = None ->
    JsMap.get (Highlighter.languageIdToScopeName st) second = None ->
    first <> second ->
    let r1 := Highlighter.activateLanguage loadGrammar scopeName first defer
                st in
    let r2 := Highlighter.activateLanguage loadGrammar scopeName second defer
                (snd (fst r1)) in
    let st2 := snd (fst r2) in
    fst (fst r1) = Settles (Fulfilled false)
    /\ fst (fst r2) = Settles (Fulfilled false)
    /\ Highlighter.hasLanguageRegistered first st2 = true
    /\ Highlighter.hasLanguageRegistered second st2 = true
    /\ fst (Highlighter.linkInjections injected (JArray [JString scopeName])
              st2)
       = Normal [second].
Proof.
  intros loadGrammar st scopeName first second injected Hraw H1 H2 Hne.
  cbv zeta.
  rewrite (activateLanguage_defer loadGrammar st scopeName first Hraw H1).
  cbn [fst snd].
  rewrite (activateLanguage_defer loadGrammar _ scopeName second);
    cbn [Highlighter.scopeNameToRawGrammars Highlighter.languageIdToScopeName];
    [| exact Hraw
     | now rewrite (JsMap_get_set_other _ first second scopeName Hne)].
  cbn [fst snd]. split; [reflexivity|]. split; [reflexivity|].
  unfold Highlighter.hasLanguageRegistered, JsMap.has.
  cbn [Highlighter.languageIdToScopeName].
  rewrite (JsMap_get_set_other _ second first scopeName (not_eq_sym Hne)).
  rewrite !JsMap_get_set_same. split; [reflexivity|]. split; [reflexivity|].
  unfold Highlighter.linkInjections.
  cbn [string_array every_string fold_left Highlighter.link_one].
  unfold Highlighter.note_affected.
  cbn [Highlighter.scopeNameToLanguageId].
  rewrite JsMap_get_set_same. reflexivity.
Qed.

Lemma second_language_hides_first_witness :
  let st :=
    Highlighter.addGrammar "source.js" (RawGrammar "{}") Highlighter.initial in
  let st2 :=
    snd (fst (Highlighter.activateLanguage ready_engine "source.js" "jsx"
                defer
                (snd (fst (Highlighter.activateLanguage ready_engine
                             "source.js" "javascript" defer st))))) in
  fst (Highlighter.linkInjections "styled" (JArray [JString "source.js"]) st2)
  = Normal ["jsx"].
Proof.
  cbv zeta.
  pose proof (second_language_hides_first ready_engine
                (Highlighter.addGrammar "source.js" (RawGrammar "{}")
                   Highlighter.initial)
                "source.js" "javascript" "jsx" "styled"
                eq_refl eq_refl eq_refl ltac:(discriminate)) as H.
  cbv zeta in H. exact (proj2 (proj2 (proj2 (proj2 H)))).
Defined.

(** ** Loading through the engine *)

(** X6. After a link the engine instance is gone; the next [loadLanguage]
    of a language bound to a non-empty scope that has a grammar builds a new
    one and asks it for the scope with the linked hosts already carrying the
    injection, and a further [loadLanguage] asks the engine again and
    leaves the statics, the instance included, as they are. *)
Theorem load_after_link_sees_injection :
  forall (loadGrammar : Highlighter.Statics -> string -> Outcome (option IGrammar))
         (st : Highlighter.Statics) (injected : string) (hosts : list string)
         (languageId scopeName : string),
    JsMap.get (Highlighter.languageIdToScopeName st) languageId
      = Some scopeName ->
    scopeName <> "" ->
    JsMap.has (Highlighter.scopeNameToRawGrammars st) scopeName = true ->
    let st1 := snd (Highlighter.linkInjections injected
                      (JArray (map JString hosts)) st) in
    let r := Highlighter.loadLanguage loadGrammar languageId st1 in
    let st2 := snd r in
    Highlighter.registry st1 = None
    /\ fst r = Some (loadGrammar st2 scopeName)
    /\ Highlighter.registry st2 = Some NewRegistry
    /\ (forall h, In h hosts ->
          exists l, Highlighter.getInjections st2 h = Some l /\ In injected l)
    /\ Highlighter.loadLanguage loadGrammar languageId st2
       = (Some (loadGrammar st2 scopeName), st2).
Proof.
  intros loadGrammar st injected hosts languageId scopeName Hl Hne Hraw.
  cbv zeta. rewrite linkInjections_strings. cbv zeta. cbn [snd].
  pose proof (link_fold_injections st injected hosts
                (Highlighter.scopeNameToInjections st) JsSet.empty) as Hi.
  cbv zeta in Hi. destruct Hi as [Hin _].
  set (inj1 := fst (fold_left (Highlighter.link_one st injected) hosts _))
    in *.
  assert (Hempty : String.eqb scopeName "" = false)
    by (now destruct (String.eqb_spec scopeName "")).
  unfold Highlighter.loadLanguage, Highlighter.initRegistry,
    Highlighter.with_registry, Highlighter.with_injections.
  cbn [Highlighter.languageIdToScopeName Highlighter.scopeNameToRawGrammars
       Highlighter.registry Highlighter.scopeNameToInjections
       Highlighter.scopeNameToLanguageId].
  rewrite Hl, Hraw, Hempty.
  cbn [negb orb fst snd Highlighter.registry
       Highlighter.languageIdToScopeName Highlighter.scopeNameToRawGrammars
       Highlighter.scopeNameToInjections Highlighter.scopeNameToLanguageId].
  rewrite ?Hl, ?Hraw, ?Hempty. cbn [negb orb].
  do 3 (split; [reflexivity|]). split; [|reflexivity].
  intros h Hh. unfold Highlighter.getInjections.
  cbn [Highlighter.scopeNameToInjections]. rewrite (Hin h Hh).
  eexists. split; [reflexivity|]. apply JsSet_In_add. now right.
Qed.

Lemma load_after_link_sees_injection_witness :
  Highlighter.getInjections
    (snd (Highlighter.loadLanguage ready_engine "javascript"
            (snd (Highlighter.linkInjections "styled"
                    (JArray (map JString ["source.js"])) js_registry))))
    "source.js"
  = Some ["styled"]
  /\ Highlighter.registry
       (snd (Highlighter.loadLanguage ready_engine "javascript"
               (snd (Highlighter.linkInjections "styled"
                       (JArray (map JString ["source.js"])) js_registry))))
     = Some NewRegistry.
Proof.
  pose proof (load_after_link_sees_injection ready_engine js_registry
                "styled" ["source.js"] "javascript" "source.js"
                eq_refl ltac:(discriminate) eq_refl) as H.
  cbv zeta in H. destruct H as (_ & _ & Hreg & _ & _).
  split; [reflexivity | exact Hreg].
Defined.

(** ** [getGrammarDefinition] *)

Lemma JsMap_keys_set_present {V : Type} (m : JsMap.t V) (k : string)
    (v v0 : V) :
  JsMap.get m k = Some v0 -> JsMap.keys (JsMap.set m k v) = JsMap.keys m.
Proof.
  unfold JsMap.keys.
  induction m as [|[k1 v1] r IH]; cbn [JsMap.get JsMap.set map];
    [discriminate|].
  destruct (String.eqb k1 k); cbn [map fst]; [reflexivity|].
  intros H. now rewrite IH.
Qed.

(** X7. For a scope without grammar source the callback fails with the
    not-found error and changes nothing.  For a scope with one it answers
    with the grammar document in json format, whatever form the source had,
    and leaves the resolved document stored under the scope, all other
    entries and maps being untouched; a stored producer is called once, with
    its own scope name.  Asked again, it gives the same answer, calls no
    producer and changes nothing more. *)
Theorem getGrammarDefinition_normalises :
  forall (st : Highlighter.Statics) (scopeName : string)
         (dependentScope again : option string),
    let r := Highlighter.getGrammarDefinition scopeName dependentScope st in
    let st' := snd (fst r) in
    match JsMap.get (Highlighter.scopeNameToRawGrammars st) scopeName with
    | None =>
        r = (Rejected (Highlighter.grammar_not_found scopeName dependentScope),
             st, [])
    | Some source =>
        exists g,
          fst (fst r) = Fulfilled (Some (Highlighter.mkDefinition g "json"))
          /\ g = match source with
                 | RawGrammar g0 | PromiseOf g0 => g0
                 | Producer f _ => f scopeName
                 end
          /\ snd r = match source with
                     | Producer _ _ => [scopeName]
                     | _ => []
                     end
          /\ JsMap.get (Highlighter.scopeNameToRawGrammars st') scopeName
             = Some (RawGrammar g)
          /\ (forall other, other <> scopeName ->
                JsMap.get (Highlighter.scopeNameToRawGrammars st') other
                = JsMap.get (Highlighter.scopeNameToRawGrammars st) other)
          /\ JsMap.keys (Highlighter.scopeNameToRawGrammars st')
             = JsMap.keys (Highlighter.scopeNameToRawGrammars st)
          /\ Highlighter.scopeNameToInjections st'
             = Highlighter.scopeNameToInjections st
          /\ Highlighter.scopeNameToLanguageId st'
             = Highlighter.scopeNameToLanguageId st
          /\ Highlighter.languageIdToScopeName st'
             = Highlighter.languageIdToScopeName st
          /\ Highlighter.registry st' = Highlighter.registry st
          /\ Highlighter.getGrammarDefinition scopeName again st'
             = (Fulfilled (Some (Highlighter.mkDefinition g "json")), st', [])
    end.
Proof.
  intros st scopeName dependentScope again. cbv zeta.
  destruct (JsMap.get (Highlighter.scopeNameToRawGrammars st) scopeName)
    as [source|] eqn:E.
  - assert (Hagain :
      forall raw g,
        JsMap.get raw scopeName = Some (RawGrammar g) ->
        Highlighter.getGrammarDefinition scopeName again
          (Highlighter.with_rawGrammars st raw)
        = (Fulfilled (Some (Highlighter.mkDefinition g "json")),
           Highlighter.with_rawGrammars st raw, [])).
    { intros raw g Hg. unfold Highlighter.getGrammarDefinition.
      cbn [Highlighter.with_rawGrammars Highlighter.scopeNameToRawGrammars].
      now rewrite Hg. }
    unfold Highlighter.getGrammarDefinition. rewrite E.
    destruct source as [g|g|f [|]]; cbn [fst snd].
    + exists g. repeat split; trivial.
      unfold Highlighter.getGrammarDefinition. now rewrite E.
    + exists g. repeat split; trivial;
        cbn [Highlighter.with_rawGrammars Highlighter.scopeNameToRawGrammars].
      * apply JsMap_get_set_same.
      * intros other Hne. apply JsMap_get_set_other. congruence.
      * eapply JsMap_keys_set_present. exact E.
      * apply Hagain. apply JsMap_get_set_same.
    + exists (f scopeName). repeat split; trivial;
        cbn [Highlighter.with_rawGrammars Highlighter.scopeNameToRawGrammars].
      * apply JsMap_get_set_same.
      * intros other Hne. rewrite !JsMap_get_set_other by congruence.
        reflexivity.
      * erewrite JsMap_keys_set_present by apply JsMap_get_set_same.
        eapply JsMap_keys_set_present. exact E.
      * apply (Hagain _ (f scopeName)). apply JsMap_get_set_same.
    + exists (f scopeName). repeat split; trivial;
        cbn [Highlighter.with_rawGrammars Highlighter.scopeNameToRawGrammars].
      * apply JsMap_get_set_same.
      * intros other Hne. apply JsMap_get_set_other. congruence.
      * eapply JsMap_keys_set_present. exact E.
      * apply Hagain. apply JsMap_get_set_same.
  - unfold Highlighter.getGrammarDefinition. now rewrite E.
Qed.

Lemma getGrammarDefinition_normalises_witness :
  fst (fst (Highlighter.getGrammarDefinition "source.js" None lazy_registry))
  = Fulfilled (Some (Highlighter.mkDefinition "{ source.js }" "json"))
  /\ Highlighter.getGrammarDefinition "source.css" (Some "source.js")
       lazy_registry
     = (Rejected
          (Error
             "Grammar for scope 'source.css' not found. It is a dependency of source.js.  Use addGrammar to register one."),
        lazy_registry, []).
Proof.
  split.
  - pose proof (getGrammarDefinition_normalises lazy_registry "source.js"
                  None None) as H.
    cbv zeta in H.
    change (JsMap.get (Highlighter.scopeNameToRawGrammars lazy_registry)
              "source.js")
      with (Some (Producer (fun scopeName => "{ " ++ scopeName ++ " }")%string
                    true)) in H.
    destruct H as (g & Hr & -> & _). exact Hr.
  - exact (getGrammarDefinition_normalises lazy_registry "source.css"
             (Some "source.js") None).
Defined.

(** * Further properties of the classifier *)








(** * Further properties of the tokenizer closure *)








(** * Further properties of the theme bookkeeping and the queue *)

Lemma WeakSet_has_In (s : WeakSet.t) (x : Editor) :
  WeakSet.has s x = true <-> In x s.
Proof.
  unfold WeakSet.has. rewrite existsb_exists. split.
  - intros (y & Hy & E). apply Nat.eqb_eq in E. now subst.
  - intros H. exists x. split; [exact H | apply Nat.eqb_refl].
Qed.

Lemma WeakSet_In_delete (s : WeakSet.t) (x y : Editor) :
  In y (WeakSet.delete s x) <-> In y s /\ y <> x.
Proof.
  unfold WeakSet.delete. rewrite filter_In. split.
  - intros [H E]. split; [exact H|]. intros ->.
    now rewrite Nat.eqb_refl in E.
  - intros [H Hne]. split; [exact H|].
    destruct (Nat.eqb_spec x y); [congruence | reflexivity].
Qed.

Lemma WeakSet_delete_NoDup (s : WeakSet.t) (x : Editor) :
  NoDup s -> NoDup (WeakSet.delete s x).
Proof. apply NoDup_filter. Qed.

Lemma WeakSet_delete_length (s : WeakSet.t) (x : Editor) :
  NoDup s -> In x s -> S (length (WeakSet.delete s x)) = length s.
Proof.
  unfold WeakSet.delete. induction 1 as [|y r Hy Hr IH]; cbn [In filter length].
  - tauto.
  - intros [->|Hin].
    + rewrite Nat.eqb_refl. cbn [negb]. f_equal.
      clear IH Hr. induction r as [|z r IH]; [reflexivity|].
      cbn [filter]. destruct (Nat.eqb_spec x z) as [->|Hne].
      * exfalso. apply Hy. now left.
      * cbn [negb length]. f_equal. apply IH. intros H. apply Hy. now right.
    + destruct (Nat.eqb_spec x y) as [->|Hne]; [contradiction|].
      cbn [negb length]. f_equal. now apply IH.
Qed.

Lemma WeakSet_In_add (s : WeakSet.t) (x y : Editor) :
  In y (WeakSet.add s x) <-> y = x \/ In y s.
Proof.
  unfold WeakSet.add. destruct (WeakSet.has s x) eqn:E.
  - apply WeakSet_has_In in E. split; [auto | intros [->|H]; assumption].
  - cbn [In]. split; (intros [H|H]; [left; congruence | now right]).
Qed.

Lemma WeakMap_get_delete_other {V : Type} (m : WeakMap.t V) (k k' : Editor) :
  k <> k' -> WeakMap.get (WeakMap.delete m k) k' = WeakMap.get m k'.
Proof.
  intros Hne. induction m as [|[k0 v0] r IH]; cbn [WeakMap.delete WeakMap.get];
    [reflexivity|].
  destruct (Nat.eqb_spec k0 k) as [->|Hk].
  - destruct (Nat.eqb_spec k k'); [contradiction | exact IH].
  - cbn [WeakMap.get]. destruct (Nat.eqb k0 k'); [reflexivity | exact IH].
Qed.

Lemma WeakMap_get_set {V : Type} (m : WeakMap.t V) (k k' : Editor) (v : V) :
  WeakMap.get (WeakMap.set m k v) k'
  = if Nat.eqb k k' then Some v else WeakMap.get m k'.
Proof.
  unfold WeakMap.set. cbn [WeakMap.get].
  destruct (Nat.eqb_spec k k') as [->|Hne]; [reflexivity|].
  now apply WeakMap_get_delete_other.
Qed.

Section JsMapKeyFacts.
Context {V : Type}.

Lemma JsMap_get_keys (m : JsMap.t V) (k : string) (v : V) :
  JsMap.get m k = Some v -> In k (JsMap.keys m).
Proof.
  intros H. apply JsMap_get_In in H.
  unfold JsMap.keys. apply in_map_iff. now exists (k, v).
Qed.

Lemma JsMap_get_absent (m : JsMap.t V) (k : string) :
  ~ In k (JsMap.keys m) -> JsMap.get m k = None.
Proof.
  intros H. destruct (JsMap.get m k) as [v|] eqn:E; [|reflexivity].
  exfalso. apply H. exact (JsMap_get_keys _ _ _ E).
Qed.

Lemma JsMap_keys_set_absent (m : JsMap.t V) (k : string) (v : V) :
  JsMap.get m k = None ->
  JsMap.keys (JsMap.set m k v) = JsMap.keys m ++ [k].
Proof.
  unfold JsMap.keys.
  induction m as [|[k1 v1] r IH]; cbn [JsMap.get JsMap.set map app fst];
    [reflexivity|].
  destruct (String.eqb k1 k); [discriminate|].
  intros H. cbn [map fst]. now rewrite IH.
Qed.

Lemma JsMap_keys_delete (m : JsMap.t V) (k : string) :
  JsMap.keys (JsMap.delete m k) = Index.removeChild (JsMap.keys m) k.
Proof.
  unfold JsMap.keys.
  induction m as [|[k1 v1] r IH]; cbn [JsMap.delete map Index.removeChild fst];
    [reflexivity|].
  destruct (String.eqb k1 k); cbn [map fst]; [reflexivity | now rewrite IH].
Qed.

Lemma removeChild_In (head : list string) (k x : string) :
  In x (Index.removeChild head k) -> In x head.
Proof.
  induction head as [|n r IH]; cbn [Index.removeChild In]; [tauto|].
  destruct (String.eqb n k); cbn [In]; tauto.
Qed.

Lemma removeChild_NoDup (head : list string) (k : string) :
  NoDup head -> NoDup (Index.removeChild head k).
Proof.
  induction 1 as [|n r Hn Hr IH]; cbn [Index.removeChild]; [constructor|].
  destruct (String.eqb n k); [exact Hr|].
  constructor; [|exact IH]. intros H. apply Hn.
  exact (removeChild_In _ _ _ H).
Qed.

Lemma JsMap_get_delete_same_key (m : JsMap.t V) (k : string) :
  NoDup (JsMap.keys m) -> JsMap.get (JsMap.delete m k) k = None.
Proof.
  unfold JsMap.keys.
  induction m as [|[k1 v1] r IH]; cbn [JsMap.delete JsMap.get map fst];
    [reflexivity|].
  intros Hnd. inversion Hnd as [|? ? Hk Hr]; subst.
  destruct (String.eqb_spec k1 k) as [->|Hne].
  - apply JsMap_get_absent. exact Hk.
  - cbn [JsMap.get]. destruct (String.eqb_spec k1 k); [contradiction|].
    now apply IH.
Qed.

Lemma JsMap_get_delete_other (m : JsMap.t V) (k k' : string) :
  k <> k' -> JsMap.get (JsMap.delete m k) k' = JsMap.get m k'.
Proof.
  intros Hne.
  induction m as [|[k1 v1] r IH]; cbn [JsMap.delete JsMap.get];
    [reflexivity|].
  destruct (String.eqb_spec k1 k) as [->|Hk].
  - destruct (String.eqb_spec k k'); [contradiction | reflexivity].
  - cbn [JsMap.get]. destruct (String.eqb k1 k'); [reflexivity | exact IH].
Qed.

Lemma JsMap_get_set_any (m : JsMap.t V) (k k' : string) (v : V) :
  JsMap.get (JsMap.set m k v) k'
  = if String.eqb k k' then Some v else JsMap.get m k'.
Proof.
  destruct (String.eqb_spec k k') as [->|Hne].
  - apply JsMap_get_set_same.
  - now apply JsMap_get_set_other.
Qed.
End JsMapKeyFacts.

Lemma JsMap_get_none_keys {V : Type} (m : JsMap.t V) (k : string) :
  JsMap.get m k = None -> ~ In k (JsMap.keys m).
Proof.
  unfold JsMap.keys.
  induction m as [|[k1 v1] r IH]; cbn [JsMap.get map In fst]; [tauto|].
  destruct (String.eqb_spec k1 k) as [->|Hne]; [discriminate|].
  intros H [E|Hin]; [contradiction | now apply IH].
Qed.

(** ** The stylesheet entries *)

Lemma previous_theme_recorded (w : Index.World) (cm : Editor) :
  previous_theme w cm <> "default" ->
  WeakMap.get (Index.cmThemeRecord w) cm = Some (previous_theme w cm).
Proof.
  unfold previous_theme.
  destruct (WeakMap.get (Index.cmThemeRecord w) cm) as [[|c r]|];
    [tauto | reflexivity | tauto].
Qed.

(** Releasing the previous theme keeps the entries in good order and loses
    no other editor. *)
Lemma cleanup_previous_ok (w : Index.World) (cm : Editor) (themeName : string) :
  sheets_ok w ->
  let r := Index.cleanup_previous cm (previous_theme w cm) themeName w in
  nodes_ok (Index.themedHighlighters w) (fst r) (snd r)
  /\ forall cm', cm' <> cm ->
       user_ok (Index.themedHighlighters w) (Index.cmThemeRecord w) (fst r)
         cm'.
Proof.
  intros [(Hnd & Hhead & Hmeta) Husers]. cbv zeta.
  unfold Index.cleanup_previous.
  set (prev := previous_theme w cm).
  destruct (negb (String.eqb prev "default") && negb (String.eqb prev themeName)
            && JsMap.has (Index.themedHighlighters w) themeName) eqn:Econd;
    cbn [fst snd]; [|split; [exact (conj Hnd (conj Hhead Hmeta)) | intros; apply Husers]].
  apply andb_prop in Econd. destruct Econd as [Econd _].
  apply andb_prop in Econd. destruct Econd as [Edef _].
  assert (Hprev : prev <> "default").
  { intros E. rewrite E in Edef. discriminate Edef. }
  destruct (JsMap.get (Index.tmThemeStyleNodes w) prev) as [meta|] eqn:Eget;
    cbn [fst snd]; [|split; [exact (conj Hnd (conj Hhead Hmeta)) | intros; apply Husers]].
  destruct (Hmeta prev meta Eget) as (Hnode & Hund & Hne & Hcount & Hths & _).
  assert (Hcm : In cm (Index.inUseBy meta)).
  { destruct (Husers cm prev (previous_theme_recorded w cm Hprev) Hprev Hths)
      as (meta' & Hget' & Hin).
    rewrite Eget in Hget'. now injection Hget' as <-. }
  rewrite (proj2 (WeakSet_has_In _ _) Hcm). cbn [andb].
  destruct (Z.eqb_spec (Index.inUseByCount meta) 1) as [Hone|Hmore];
    cbn [fst snd].
  - (* the last user leaves: the entry and its node go *)
    assert (Honly : forall cm', In cm' (Index.inUseBy meta) -> cm' = cm).
    { intros cm' Hin'. rewrite Hcount in Hone.
      destruct (Index.inUseBy meta) as [|a [|b l]]; cbn [length] in Hone;
        [destruct Hcm | | lia].
      destruct Hcm as [<-|[]]. destruct Hin' as [<-|[]]. reflexivity. }
    split; [split; [|split]|].
    + rewrite JsMap_keys_delete. now apply removeChild_NoDup.
    + rewrite JsMap_keys_delete, Hhead, Hnode. reflexivity.
    + intros theme m Hm. destruct (string_dec prev theme) as [<-|Hne'].
      * rewrite JsMap_get_delete_same_key in Hm by exact Hnd. discriminate.
      * rewrite JsMap_get_delete_other in Hm by exact Hne'. now apply Hmeta.
    + intros cm' Hcm' theme Hrec Hdef Hreg.
      destruct (Husers cm' theme Hrec Hdef Hreg) as (m & Hm & Hin).
      exists m. split; [|exact Hin].
      destruct (string_dec prev theme) as [<-|Hne'].
      * rewrite Eget in Hm. injection Hm as <-.
        exfalso. apply Hcm'. now apply Honly.
      * now rewrite JsMap_get_delete_other.
  - (* others stay: one user less *)
    pose proof (WeakSet_delete_length _ cm Hund Hcm) as Hlen.
    split; [split; [|split]|].
    + now rewrite (JsMap_keys_set_present _ _ _ _ Eget).
    + now rewrite (JsMap_keys_set_present _ _ _ _ Eget).
    + intros theme m. rewrite JsMap_get_set_any.
      destruct (String.eqb_spec prev theme) as [<-|Hne'];
        [|now apply Hmeta].
      intros [= <-]. unfold meta_ok.
      cbn [Index.styleNode Index.inUseBy Index.inUseByCount].
      repeat split; trivial.
      * now apply WeakSet_delete_NoDup.
      * intros E. rewrite E in Hlen. cbn [length] in Hlen. lia.
      * lia.
    + intros cm' Hcm' theme Hrec Hdef Hreg.
      destruct (Husers cm' theme Hrec Hdef Hreg) as (m & Hm & Hin).
      rewrite JsMap_get_set_any.
      destruct (String.eqb_spec prev theme) as [<-|Hne'].
      * rewrite Eget in Hm. injection Hm as <-.
        eexists. split; [reflexivity|]. cbn [Index.inUseBy].
        apply WeakSet_In_delete. now split.
      * exists m. now split.
Qed.

(** Taking up the new theme keeps the entries in good order, loses no user
    and, for a registered theme other than ['default'], makes the editor a
    user of its entry. *)
Lemma allocate_new_ok (ths : JsMap.t Highlighter.t) (cm : Editor)
    (themeName : string) (nodes : JsMap.t Index.StyleMeta)
    (head : list string) :
  nodes_ok ths nodes head ->
  let isTextMateTheme :=
    negb (String.eqb themeName "default") && JsMap.has ths themeName in
  let r := Index.allocate_new cm themeName isTextMateTheme nodes head in
  nodes_ok ths (fst r) (snd r)
  /\ (forall cm' theme meta,
        JsMap.get nodes theme = Some meta -> In cm' (Index.inUseBy meta) ->
        exists meta',
          JsMap.get (fst r) theme = Some meta'
          /\ In cm' (Index.inUseBy meta'))
  /\ (themeName <> "default" -> JsMap.has ths themeName = true ->
      exists meta,
        JsMap.get (fst r) themeName = Some meta
        /\ In cm (Index.inUseBy meta)).
Proof.
  intros (Hnd & Hhead & Hmeta). cbv zeta. unfold Index.allocate_new.
  destruct (negb (String.eqb themeName "default") && JsMap.has ths themeName)
    eqn:Etm; cbn [fst snd].
  2:{ split; [exact (conj Hnd (conj Hhead Hmeta))|]. split; [eauto|].
      intros Hdef Hreg. rewrite Hreg in Etm.
      destruct (String.eqb_spec themeName "default"); [contradiction|].
      discriminate Etm. }
  apply andb_prop in Etm. destruct Etm as [Edef Ereg].
  assert (Hdef : themeName <> "default").
  { intros E. rewrite E in Edef. discriminate Edef. }
  destruct (JsMap.get nodes themeName) as [meta|] eqn:Eget.
  - destruct (Hmeta themeName meta Eget)
      as (Hnode & Hund & Hne & Hcount & _ & _).
    destruct (WeakSet.has (Index.inUseBy meta) cm) eqn:Ehas;
      cbn [negb fst snd].
    + split; [exact (conj Hnd (conj Hhead Hmeta))|]. split; [eauto|].
      intros _ _. exists meta. split; [exact Eget|].
      now apply WeakSet_has_In.
    + assert (Hadd : WeakSet.add (Index.inUseBy meta) cm
                     = cm :: Index.inUseBy meta).
      { unfold WeakSet.add. now rewrite Ehas. }
      assert (Hnew : ~ In cm (Index.inUseBy meta)).
      { intros H. apply WeakSet_has_In in H. congruence. }
      split; [split; [|split]|split].
      * now rewrite (JsMap_keys_set_present _ _ _ _ Eget).
      * now rewrite (JsMap_keys_set_present _ _ _ _ Eget).
      * intros theme m. rewrite JsMap_get_set_any.
        destruct (String.eqb_spec themeName theme) as [<-|Hne'];
          [|now apply Hmeta].
        intros [= <-]. unfold meta_ok.
        cbn [Index.styleNode Index.inUseBy Index.inUseByCount].
        rewrite Hadd. repeat split; trivial.
        -- now constructor.
        -- discriminate.
        -- cbn [length]. lia.
      * intros cm' theme m Hm Hin. rewrite JsMap_get_set_any.
        destruct (String.eqb_spec themeName theme) as [<-|Hne'];
          [|eauto].
        rewrite Eget in Hm. injection Hm as <-.
        eexists. split; [reflexivity|]. cbn [Index.inUseBy].
        apply WeakSet_In_add. now right.
      * intros _ _. rewrite JsMap_get_set_same.
        eexists. split; [reflexivity|]. cbn [Index.inUseBy].
        apply WeakSet_In_add. now left.
  - cbn [fst snd]. split; [split; [|split]|split].
    + rewrite (JsMap_keys_set_absent _ _ _ Eget).
      apply NoDup_app; [exact Hnd | constructor; [intros [] | constructor] |].
      intros x Hx [<-|[]]. exact (JsMap_get_none_keys _ _ Eget Hx).
    + now rewrite (JsMap_keys_set_absent _ _ _ Eget), Hhead.
    + intros theme m. rewrite JsMap_get_set_any.
      destruct (String.eqb_spec themeName theme) as [<-|Hne'];
        [|now apply Hmeta].
      intros [= <-]. unfold meta_ok.
      cbn [Index.styleNode Index.inUseBy Index.inUseByCount].
      repeat split; trivial.
      * constructor; [intros [] | constructor].
      * discriminate.
    + intros cm' theme m Hm Hin. rewrite JsMap_get_set_any.
      destruct (String.eqb_spec themeName theme) as [<-|Hne']; [|eauto].
      rewrite Eget in Hm. discriminate Hm.
    + intros _ _. rewrite JsMap_get_set_same.
      eexists. split; [reflexivity|]. cbn [Index.inUseBy]. now left.
Qed.

(** What [updateCmTmBindings] leaves in the world, whichever way it ends. *)
Lemma updateCmTmBindings_world (cm : Editor) (w : Index.World) :
  let themeName := Index.getOption_theme w cm in
  let released :=
    Index.cleanup_previous cm (previous_theme w cm) themeName w in
  let taken :=
    Index.allocate_new cm themeName
      (negb (String.eqb themeName "default")
       && JsMap.has (Index.themedHighlighters w) themeName)
      (fst released) (snd released) in
  let w' := snd (Index.updateCmTmBindings cm w) in
  Index.themedHighlighters w' = Index.themedHighlighters w
  /\ Index.cmThemeRecord w'
     = WeakMap.set (Index.cmThemeRecord w) cm themeName
  /\ Index.tmThemeStyleNodes w' = fst taken
  /\ Index.document_head w' = snd taken
  /\ Index.options w' = Index.options w
  /\ Index.statics w' = Index.statics w
  /\ Index.defineMode_calls w' = Index.defineMode_calls w
  /\ Index.queue w' = Index.queue w
  /\ Index.resolverCallbacks w' = Index.resolverCallbacks w
  /\ Index.currentActivation w' = Index.currentActivation w
  /\ Index.parked w' = Index.parked w
  /\ Index.promises w' = Index.promises w
  /\ Index.uncaught w' = Index.uncaught w.
Proof.
  cbv zeta. unfold Index.updateCmTmBindings, previous_theme.
  destruct (Index.cleanup_previous cm _ (Index.getOption_theme w cm) w)
    as [nodes1 head1].
  cbn [fst snd].
  destruct (Index.allocate_new cm (Index.getOption_theme w cm) _ nodes1 head1)
    as [nodes2 head2].
  repeat match goal with
         | |- context [if ?b then _ else _] => destruct b
         | |- context [match ?x with Some _ => _ | None => _ end] =>
             destruct x
         end;
    cbn [fst snd]; repeat split.
Qed.

Lemma updateCmTmBindings_sheets (cm : Editor) (w : Index.World) :
  sheets_ok w -> sheets_ok (snd (Index.updateCmTmBindings cm w)).
Proof.
  intros Hok.
  destruct (updateCmTmBindings_world cm w)
    as (Hths & Hrec & Hnodes & Hhead & _).
  destruct (cleanup_previous_ok w cm (Index.getOption_theme w cm) Hok)
    as [Hrel Hothers].
  destruct (allocate_new_ok (Index.themedHighlighters w) cm
              (Index.getOption_theme w cm) _ _ Hrel)
    as (Htaken & Hkeep & Hself).
  unfold sheets_ok. rewrite Hths, Hrec, Hnodes, Hhead.
  split; [exact Htaken|].
  intros cm' theme. rewrite WeakMap_get_set.
  destruct (Nat.eqb_spec cm cm') as [<-|Hne].
  - intros [= <-] Hdef Hreg. now apply Hself.
  - intros Hrecorded Hdef Hreg.
    destruct (Hothers cm' (not_eq_sym Hne) theme Hrecorded Hdef Hreg)
      as (meta & Hm & Hin).
    exact (Hkeep cm' theme meta Hm Hin).
Qed.

Lemma sheets_ok_fields (w w' : Index.World) :
  sheet_fields w' = sheet_fields w -> sheets_ok w -> sheets_ok w'.
Proof.
  unfold sheet_fields, sheets_ok. intros [= -> -> -> ->]. exact (fun H => H).
Qed.

Lemma proceed_sheets (w : Index.World) :
  sheets_ok w -> sheets_ok (Index.proceed w).
Proof.
  intros Hok. unfold Index.proceed.
  destruct (Index.queue w) as [|next rest]; [exact Hok|].
  pose proof (updateCmTmBindings_sheets next w Hok) as H.
  destruct (Index.updateCmTmBindings next w) as [activation w1].
  cbn [snd] in H. revert H. now apply sheets_ok_fields.
Qed.

Lemma supersede_active_fields (cm : Editor) (w : Index.World) :
  sheet_fields (snd (Index.supersede_active cm w)) = sheet_fields w.
Proof.
  unfold Index.supersede_active.
  destruct (Index.queue w) as [|head rest]; [reflexivity|].
  destruct (Index.currentActivation w) as [activation|]; [|reflexivity].
  destruct (Nat.eqb head cm); [|reflexivity].
  destruct (WeakMap.get (Index.resolverCallbacks w) cm); reflexivity.
Qed.

Lemma safeUpdateCM_sheets (cm : Editor) (w : Index.World) :
  sheets_ok w -> sheets_ok (snd (Index.safeUpdateCM cm w)).
Proof.
  intros Hok. unfold Index.safeUpdateCM.
  pose proof (supersede_active_fields cm w) as Hf.
  destruct (Index.supersede_active cm w) as [[[]|e] w1]; cbn [snd] in *.
  - assert (H1 : sheets_ok w1) by now apply (sheets_ok_fields w).
    match goal with
    | |- context [Index.currentActivation ?w2] =>
        assert (H2 : sheets_ok w2) by (revert H1; now apply sheets_ok_fields);
        destruct (Index.currentActivation w2)
    end; cbn [snd]; [exact H2 | now apply proceed_sheets].
  - now apply (sheets_ok_fields w).
Qed.

Lemma tokenizer_ready_fields (w : Index.World) :
  sheet_fields (Index.tokenizer_ready w) = sheet_fields w.
Proof.
  unfold Index.tokenizer_ready.
  destruct (Index.currentActivation w) as [[acm [languageId highlighter|v] c]|];
    cbn [Index.act_phase Index.canceled]; [|reflexivity|reflexivity].
  destruct c; reflexivity.
Qed.

Lemma resume_sheets (w : Index.World) :
  sheets_ok w -> sheets_ok (Index.resume w).
Proof.
  intros Hok. unfold Index.resume.
  destruct (Index.currentActivation w) as [[acm [languageId highlighter|v] c]|];
    cbn [Index.act_phase]; try exact Hok;
    destruct (Index.parked w) as [[next [p|]]|]; cbn [Index.resolver];
    try exact Hok.
  apply proceed_sheets. revert Hok. now apply sheets_ok_fields.
Qed.

Lemma step_sheets (w : Index.World) (e : Index.Event) :
  sheets_ok w -> sheets_ok (Index.step w e).
Proof.
  intros Hok. destruct e as [cm mode theme|cm| |]; cbn [Index.step].
  - revert Hok. now apply sheets_ok_fields.
  - now apply safeUpdateCM_sheets.
  - revert Hok. apply sheets_ok_fields. apply tokenizer_ready_fields.
  - now apply resume_sheets.
Qed.

(** X11. The stylesheet bookkeeping stays in good order whatever happens:
    in every world reached from one in good order by any sequence of option
    changes, rebind requests, tokenizer arrivals and queue resumptions,
    there is one entry per theme and the document holds exactly the style
    nodes of the entries; every entry has at least one user, lists each once
    and counts them right; and every editor recorded with a registered
    theme other than ['default'] is a user of that theme's entry. *)
Theorem stylesheets_stay_in_order :
  forall (events : list Index.Event) (w : Index.World),
    sheets_ok w -> sheets_ok (Index.run events w).
Proof.
  unfold Index.run. induction events as [|e r IH]; intros w Hok;
    cbn [fold_left]; [exact Hok|].
  apply IH. now apply step_sheets.
Qed.

Lemma sheets_ok_without_entries (w : Index.World) :
  Index.tmThemeStyleNodes w = [] -> Index.document_head w = [] ->
  Index.cmThemeRecord w = [] -> sheets_ok w.
Proof.
  intros Hn Hh Hr. unfold sheets_ok, nodes_ok, user_ok. rewrite Hn, Hh, Hr.
  split; [split; [constructor | split; [reflexivity | discriminate]]|].
  discriminate.
Qed.

Lemma stylesheets_stay_in_order_witness :
  sheets_ok (Index.run share_then_leave themed_world)
  /\ Index.document_head (Index.run share_then_leave themed_world)
     = ["Monokai"].
Proof.
  split.
  - apply stylesheets_stay_in_order.
    apply sheets_ok_without_entries; reflexivity.
  - vm_compute. reflexivity.
Defined.

(** ** The queue *)

Lemma proceed_queue (w : Index.World) :
  Index.queue (Index.proceed w) = Index.queue w.
Proof.
  unfold Index.proceed. destruct (Index.queue w) as [|next rest] eqn:E;
    [exact E|].
  destruct (updateCmTmBindings_world next w)
    as (_ & _ & _ & _ & _ & _ & _ & Hq & _).
  destruct (Index.updateCmTmBindings next w) as [activation w1].
  cbn [snd] in Hq. cbn [Index.with_queue Index.queue]. now rewrite Hq.
Qed.

Lemma NoDup_rotate (cm : Editor) (rest : list Editor) :
  NoDup (cm :: rest) -> NoDup (rest ++ [cm]).
Proof.
  intros H. inversion H as [|? ? Hcm Hrest]; subst.
  apply NoDup_app; [exact Hrest | constructor; [intros [] | constructor] |].
  intros x Hx [<-|[]]. exact (Hcm Hx).
Qed.

Lemma NoDup_push (cm : Editor) (q : list Editor) :
  NoDup q ->
  NoDup (if Index.not_queued q cm then q ++ [cm] else q).
Proof.
  intros H. unfold Index.not_queued.
  destruct (existsb (Nat.eqb cm) q) eqn:E; cbn [negb]; [exact H|].
  apply NoDup_app; [exact H | constructor; [intros [] | constructor] |].
  intros x Hx [Ex|[]]. subst x.
  assert (existsb (Nat.eqb cm) q = true)
    by (apply existsb_exists; exists cm; split;
        [exact Hx | apply Nat.eqb_refl]).
  congruence.
Qed.

Lemma supersede_active_queue (cm : Editor) (w : Index.World) :
  NoDup (Index.queue w) ->
  NoDup (Index.queue (snd (Index.supersede_active cm w))).
Proof.
  intros H. unfold Index.supersede_active.
  destruct (Index.queue w) as [|head rest] eqn:E; cbn [snd]; [now rewrite E|].
  destruct (Index.currentActivation w) as [activation|]; cbn [snd];
    [|now rewrite E].
  destruct (Nat.eqb_spec head cm) as [->|Hne]; cbn [snd]; [|now rewrite E].
  destruct (WeakMap.get (Index.resolverCallbacks w) cm); cbn [snd];
    cbn [Index.with_queue Index.queue Index.shift tl];
    now apply NoDup_rotate.
Qed.

Lemma step_queue (w : Index.World) (e : Index.Event) :
  NoDup (Index.queue w) -> NoDup (Index.queue (Index.step w e)).
Proof.
  intros H. destruct e as [cm mode theme|cm| |]; cbn [Index.step].
  - exact H.
  - unfold Index.safeUpdateCM.
    pose proof (supersede_active_queue cm w H) as H1.
    destruct (Index.supersede_active cm w) as [[[]|e] w1]; cbn [snd] in *;
      [|exact H1].
    pose proof (NoDup_push cm _ H1) as H2.
    match goal with
    | |- context [Index.currentActivation ?w2] =>
        destruct (Index.currentActivation w2)
    end; cbn [snd]; [exact H2 | rewrite proceed_queue; exact H2].
  - unfold Index.tokenizer_ready.
    destruct (Index.currentActivation w)
      as [[acm [languageId highlighter|v] c]|];
      cbn [Index.act_phase Index.canceled]; try exact H.
    destruct c; exact H.
  - unfold Index.resume.
    destruct (Index.currentActivation w)
      as [[acm [languageId highlighter|v] c]|];
      cbn [Index.act_phase]; try exact H;
      destruct (Index.parked w) as [[next [p|]]|]; cbn [Index.resolver];
      try exact H.
    rewrite proceed_queue. cbn [Index.with_queue Index.queue Index.shift].
    destruct (Index.queue w) as [|a r]; [exact H|].
    now inversion H.
Qed.

(** X12. The queue never holds an editor twice: whatever option changes,
    rebind requests, tokenizer arrivals and resumptions follow one another,
    a queue without repetition stays without repetition. *)
Theorem queue_never_repeats :
  forall (events : list Index.Event) (w : Index.World),
    NoDup (Index.queue w) -> NoDup (Index.queue (Index.run events w)).
Proof.
  unfold Index.run. induction events as [|e r IH]; intros w H;
    cbn [fold_left]; [exact H|].
  apply IH. now apply step_queue.
Qed.

Lemma queue_never_repeats_witness :
  NoDup (Index.queue
           (Index.run [Index.SafeUpdateCM 0; Index.SafeUpdateCM 1;
                       Index.SafeUpdateCM 1; Index.SafeUpdateCM 0]
              themed_world)).
Proof.
  apply queue_never_repeats. constructor.
Defined.

(** How [updateCmTmBindings] ends for a registered language that is not yet
    baked with the editor's theme, and what it notes down. *)
Lemma updateCmTmBindings_fresh (cm : Editor) (w : Index.World)
    (languageId themeName : string) :
  WeakMap.get (Index.options w) cm = Some (languageId, themeName) ->
  Highlighter.hasLanguageRegistered languageId (Index.statics w) = true ->
  JsMap.get (Index.cmModeToTheme w) languageId <> Some themeName ->
  fst (Index.updateCmTmBindings cm w)
  = Index.mkActivation cm
      (Index.AwaitingTokenizer languageId (highlighter_for w themeName)) false
  /\ Index.cmModeToTheme (snd (Index.updateCmTmBindings cm w))
     = JsMap.set (Index.cmModeToTheme w) languageId themeName.
Proof.
  intros Hopt Hreg Hbaked.
  unfold Index.updateCmTmBindings, Index.getOption_mode,
    Index.getOption_theme, highlighter_for.
  rewrite Hopt, Hreg.
  destruct (Index.cleanup_previous cm _ themeName w) as [nodes1 head1].
  destruct (Index.allocate_new cm themeName _ nodes1 head1)
    as [nodes2 head2].
  destruct (JsMap.get (Index.cmModeToTheme w) languageId) as [bound|] eqn:E.
  - destruct (String.eqb_spec bound themeName) as [->|Hne]; [congruence|].
    cbn [negb fst snd]. split; reflexivity.
  - cbn [negb fst snd]. split; reflexivity.
Qed.

(** How it ends for a language already baked with the editor's theme. *)
Lemma updateCmTmBindings_baked (cm : Editor) (w : Index.World)
    (languageId themeName : string) :
  WeakMap.get (Index.options w) cm = Some (languageId, themeName) ->
  JsMap.get (Index.cmModeToTheme w) languageId = Some themeName ->
  fst (Index.updateCmTmBindings cm w)
  = Index.mkActivation cm
      (Index.Settled (negb (String.eqb (previous_theme w cm) themeName)))
      false.
Proof.
  intros Hopt Hbaked.
  unfold Index.updateCmTmBindings, Index.getOption_mode,
    Index.getOption_theme, previous_theme.
  rewrite Hopt, Hbaked.
  destruct (Index.cleanup_previous cm _ themeName w) as [nodes1 head1].
  destruct (Index.allocate_new cm themeName _ nodes1 head1)
    as [nodes2 head2].
  rewrite String.eqb_refl. reflexivity.
Qed.

(** A request in an idle world starts the queue at once. *)
Lemma safeUpdateCM_idle (cm : Editor) (w : Index.World) :
  Index.queue w = [] ->
  Index.currentActivation w = None ->
  let n := length (Index.promises w) in
  let u :=
    Index.updateCmTmBindings cm
      (Index.with_queue [cm] (WeakMap.set (Index.resolverCallbacks w) cm n)
         None (Index.parked w) (Index.promises w ++ [None]) (Index.uncaught w)
         w) in
  Index.safeUpdateCM cm w
  = (Normal n,
     Index.with_queue [cm] (WeakMap.set (Index.resolverCallbacks w) cm n)
       (Some (fst u)) (Some (Index.mkParked cm (Some n)))
       (Index.promises w ++ [None]) (Index.uncaught w) (snd u)).
Proof.
  destruct w as [opts ths st m2t rec nodes head defs q cbs act pk ps errs].
  cbn [Index.queue Index.currentActivation]. intros -> ->.
  unfold Index.safeUpdateCM, Index.supersede_active, Index.proceed.
  cbn -[Index.updateCmTmBindings].
  match goal with
  | |- context [Index.updateCmTmBindings cm ?w2] =>
      destruct (updateCmTmBindings_world cm w2)
        as (_ & _ & _ & _ & _ & _ & _ & Hq' & Hcb' & _ & _ & Hps' & Herr');
      destruct (Index.updateCmTmBindings cm w2) as [activation w1]
  end.
  cbn [fst snd Index.queue Index.resolverCallbacks Index.promises
       Index.uncaught] in *.
  rewrite Hq', Hcb', Hps', Herr'. unfold WeakMap.set.
  cbn [Index.with_queue Index.queue Index.resolverCallbacks Index.promises
       Index.uncaught WeakMap.get].
  rewrite Nat.eqb_refl. reflexivity.
Qed.

(** [proceed] waking up on a settled attempt of the only queued editor. *)
Lemma resume_only_editor (w : Index.World) (cm : Editor)
    (a : Index.Activation) (value : bool) (p : nat) :
  Index.queue w = [cm] ->
  Index.currentActivation w = Some a ->
  Index.act_phase a = Index.Settled value ->
  Index.parked w = Some (Index.mkParked cm (Some p)) ->
  Index.resume w
  = Index.with_queue [] (WeakMap.delete (Index.resolverCallbacks w) cm)
      None None (Index.resolve_promise (Index.promises w) p value)
      (Index.uncaught w) w.
Proof.
  intros Hq Hact Hphase Hpk. unfold Index.resume.
  rewrite Hact, Hpk, Hphase, Hq. reflexivity.
Qed.

Lemma resolve_promise_fresh (ps : list (option bool)) (v : bool) :
  nth_error (Index.resolve_promise (ps ++ [None]) (length ps) v) (length ps)
  = Some (Some v).
Proof. induction ps as [|[b|] r IH]; cbn; trivial. Qed.

(** The tokenizer arriving for an attempt that was not cancelled. *)
Lemma tokenizer_ready_defines (w : Index.World) (cm : Editor)
    (languageId highlighter : string) :
  Index.currentActivation w
  = Some (Index.mkActivation cm
            (Index.AwaitingTokenizer languageId highlighter) false) ->
  Index.tokenizer_ready w
  = Index.with_queue (Index.queue w) (Index.resolverCallbacks w)
      (Some (Index.mkActivation cm (Index.Settled true) false))
      (Index.parked w) (Index.promises w) (Index.uncaught w)
      (Index.with_bindings (Index.cmModeToTheme w) (Index.cmThemeRecord w)
         (Index.tmThemeStyleNodes w) (Index.document_head w)
         (Index.defineMode_calls w
            ++ [Index.mkMode languageId highlighter]) w).
Proof.
  intros Hact. unfold Index.tokenizer_ready. rewrite Hact. reflexivity.
Qed.

(** X13. A request served alone, and the same request again.  In an idle
    world take an editor whose mode is a registered language not yet baked
    with the editor's theme, the theme's name not being empty.  Its request is answered with a fresh promise;
    when the tokenizer has arrived and the queue has moved on, exactly one
    mode has been defined, for that language with the highlighter of the
    theme, the promise is [true], and the world is idle again.  A second
    request with the options unchanged defines nothing and its promise is
    [false]. *)
Theorem request_served_then_unchanged :
  forall (w : Index.World) (cm : Editor) (languageId themeName : string),
    Index.queue w = [] ->
    Index.currentActivation w = None ->
    WeakMap.get (Index.options w) cm = Some (languageId, themeName) ->
    Highlighter.hasLanguageRegistered languageId (Index.statics w) = true ->
    JsMap.get (Index.cmModeToTheme w) languageId <> Some themeName ->
    themeName <> "" ->
    let first := Index.safeUpdateCM cm w in
    let served := Index.resume (Index.tokenizer_ready (snd first)) in
    let second := Index.safeUpdateCM cm served in
    let settled := Index.resume (snd second) in
    let n := length (Index.promises w) in
    fst first = Normal n
    /\ Index.defineMode_calls served
       = Index.defineMode_calls w
           ++ [Index.mkMode languageId (highlighter_for w themeName)]
    /\ nth_error (Index.promises served) n = Some (Some true)
    /\ Index.queue served = [] /\ Index.currentActivation served = None
    /\ fst second = Normal (S n)
    /\ Index.defineMode_calls settled = Index.defineMode_calls served
    /\ nth_error (Index.promises settled) (S n) = Some (Some false)
    /\ Index.queue settled = [] /\ Index.currentActivation settled = None.
Proof.
  intros w cm languageId themeName Hq Hact Hopt Hreg Hbaked Hname.
  cbv zeta. rewrite (safeUpdateCM_idle cm w Hq Hact). cbv zeta.
  cbn [fst snd].
  set (w2 := Index.with_queue [cm] _ None (Index.parked w) _ _ w).
  destruct (updateCmTmBindings_fresh cm w2 languageId themeName Hopt Hreg
              Hbaked) as [Hfirst Hm2t].
  destruct (updateCmTmBindings_world cm w2)
    as (Hths & Hrec & _ & _ & Hopts & Hst & Hdefs & _).
  set (u := Index.updateCmTmBindings cm w2) in *.
  rewrite Hfirst.
  change (highlighter_for w2 themeName) with (highlighter_for w themeName).
  set (w1 := Index.with_queue [cm] _ _ _ _ _ (snd u)).
  rewrite (tokenizer_ready_defines w1 cm languageId
             (highlighter_for w themeName) eq_refl).
  set (w3 := Index.with_queue (Index.queue w1) _ _ _ _ _ _).
  rewrite (resume_only_editor w3 cm _ true (length (Index.promises w))
             eq_refl eq_refl eq_refl eq_refl).
  set (served := Index.with_queue [] _ None None _ _ w3).
  assert (Hps : Index.promises served
                = Index.resolve_promise (Index.promises w ++ [None])
                    (length (Index.promises w)) true) by reflexivity.
  assert (Hdefs' : Index.defineMode_calls served
                   = Index.defineMode_calls w
                       ++ [Index.mkMode languageId
                             (highlighter_for w themeName)]).
  { change (Index.defineMode_calls served)
      with (Index.defineMode_calls (snd u)
              ++ [Index.mkMode languageId (highlighter_for w themeName)]).
    now rewrite Hdefs. }
  assert (Hopt' : WeakMap.get (Index.options served) cm
                  = Some (languageId, themeName)).
  { change (Index.options served) with (Index.options (snd u)).
    rewrite Hopts. exact Hopt. }
  assert (Hbaked' : JsMap.get (Index.cmModeToTheme served) languageId
                    = Some themeName).
  { change (Index.cmModeToTheme served) with (Index.cmModeToTheme (snd u)).
    rewrite Hm2t. apply JsMap_get_set_same. }
  assert (Hprev : previous_theme served cm = themeName).
  { unfold previous_theme.
    change (Index.cmThemeRecord served) with (Index.cmThemeRecord (snd u)).
    rewrite Hrec, WeakMap_get_set, Nat.eqb_refl.
    change (Index.getOption_theme w2 cm) with (Index.getOption_theme w cm).
    unfold Index.getOption_theme. rewrite Hopt.
    destruct themeName; [contradiction | reflexivity]. }
  split; [reflexivity|]. split; [exact Hdefs'|].
  split; [rewrite Hps; apply resolve_promise_fresh|].
  split; [reflexivity|]. split; [reflexivity|].
  rewrite (safeUpdateCM_idle cm served eq_refl eq_refl). cbv zeta.
  cbn [fst snd].
  set (w5 := Index.with_queue [cm] _ None (Index.parked served) _ _ served).
  pose proof (updateCmTmBindings_baked cm w5 languageId themeName Hopt'
                Hbaked') as Hsecond.
  change (previous_theme w5 cm) with (previous_theme served cm) in Hsecond.
  rewrite Hprev, String.eqb_refl in Hsecond. cbn [negb] in Hsecond.
  destruct (updateCmTmBindings_world cm w5)
    as (_ & _ & _ & _ & _ & _ & Hdefs5 & _).
  set (u5 := Index.updateCmTmBindings cm w5) in *.
  rewrite Hsecond.
  set (w6 := Index.with_queue [cm] _ _ _ _ _ (snd u5)).
  rewrite (resume_only_editor w6 cm _ false (length (Index.promises served))
             eq_refl eq_refl eq_refl eq_refl).
  assert (Hlen : length (Index.promises served)
                 = S (length (Index.promises w))).
  { rewrite Hps, resolve_promise_length, length_app. cbn [length]. lia. }
  split; [now rewrite Hlen|].
  split; [exact Hdefs5|].
  split; [|split; reflexivity].
  cbn [Index.with_queue Index.promises]. rewrite <- Hlen.
  apply resolve_promise_fresh.
Qed.

Lemma request_served_then_unchanged_witness :
  Index.defineMode_calls
    (Index.resume (Index.tokenizer_ready
                     (snd (Index.safeUpdateCM 0 themed_world))))
  = [Index.mkMode "javascript" "Monokai"].
Proof.
  pose proof (request_served_then_unchanged themed_world 0 "javascript"
                "Monokai" eq_refl eq_refl eq_refl eq_refl
                ltac:(discriminate) ltac:(discriminate)) as H.
  cbv zeta in H. destruct H as (_ & H & _). exact H.
Defined.

(** ** The exported [linkInjections] *)












(** * Properties of the stylesheet *)

Lemma prefix_append (p s : string) : String.prefix p (p ++ s)%string = true.
Proof.
  induction p as [|c r IH]; cbn; [now destruct s|].
  destruct (Ascii.ascii_dec c c); [exact IH | contradiction].
Qed.

Lemma prefix_refl (p : string) : String.prefix p p = true.
Proof.
  induction p as [|c r IH]; cbn; [reflexivity|].
  destruct (Ascii.ascii_dec c c); [exact IH | contradiction].
Qed.

Lemma table_lines_In (prefix : string) (colorMap : ThemeCss.ColorMap) :
  forall (i k : nat) (color : string),
    nth_error colorMap k = Some (Some color) ->
    In (prefix ++ " .cm-tm-" ++ Highlighter.number_toString (Z.of_nat (i + k))
        ++ " { color: " ++ color ++ " }")%string
       (ThemeCss.table_lines prefix i colorMap).
Proof.
  induction colorMap as [|slot r IH]; intros i [|k] color;
    cbn [nth_error]; try discriminate.
  - intros [= ->]. rewrite Nat.add_0_r. cbn [ThemeCss.table_lines]. now left.
  - intros H. replace (i + S k) with (S i + k) by lia.
    destruct slot; cbn [ThemeCss.table_lines]; right; now apply IH.
Qed.

Lemma table_lines_scoped (prefix : string) (colorMap : ThemeCss.ColorMap) :
  forall (i : nat) (line : string),
    In line (ThemeCss.table_lines prefix i colorMap) ->
    line = "" \/ String.prefix prefix line = true.
Proof.
  induction colorMap as [|[color|] r IH]; intros i line;
    cbn [ThemeCss.table_lines In]; [tauto | |].
  - intros [<-|H]; [right; apply prefix_append | now apply (IH (S i))].
  - intros [<-|H]; [now left | now apply (IH (S i))].
Qed.

(** X15. Every class the themed highlighter can produce has its colour
    rule.  For a theme rule with a positive foreground index that holds a
    colour in the engine's table, the class name built by the highlighter
    starts with [tm-<index>], and the stylesheet of any theme processed
    with that table contains the line giving the class [cm-tm-<index>]
    that colour under the theme's own prefix. *)
Theorem themed_classes_have_rules :
  forall (rawTheme : ThemeCss.ITextmateThemePlus) (theme : Highlighter.Theme)
         (colorMap : ThemeCss.ColorMap) (rule : Highlighter.ThemeTrieElementRule)
         (color : string),
    (0 < Highlighter.foreground rule)%Z ->
    Highlighter.js_index colorMap (Highlighter.foreground rule)
      = Some (Some color) ->
    String.prefix
      ("tm-" ++ Highlighter.number_toString (Highlighter.foreground rule))
      (Highlighter.theme_class rule) = true
    /\ In (".cm-s-" ++ ThemeCss.name rawTheme ++ " .cm-tm-"
           ++ Highlighter.number_toString (Highlighter.foreground rule)
           ++ " { color: " ++ color ++ " }")%string
          (ThemeCss.cssLines rawTheme theme colorMap).
Proof.
  intros rawTheme theme colorMap rule color Hpos Hcolor. split.
  - unfold Highlighter.theme_class.
    destruct (Highlighter.fontStyle rule =? 0)%Z;
      [|destruct (Highlighter.fontStyle rule =? 1)%Z;
        [|destruct (Highlighter.fontStyle rule =? 2)%Z]];
      first [apply prefix_append | apply prefix_refl].
  - unfold Highlighter.js_index in Hcolor.
    destruct (Z.ltb_spec (Highlighter.foreground rule) 0) as [Hneg|_];
      [lia|].
    pose proof (table_lines_In (".cm-s-" ++ ThemeCss.name rawTheme)%string
                  colorMap 0 _ color Hcolor) as Hin.
    cbn [Nat.add] in Hin. rewrite Z2Nat.id in Hin by lia.
    unfold ThemeCss.cssLines. apply in_concat.
    eexists. split; [right; right; right; left; reflexivity|].
    exact Hin.
Qed.

Lemma themed_classes_have_rules_witness :
  String.prefix "tm-2" "tm-2 em" = true
  /\ In ".cm-s-mono .cm-tm-2 { color: #ff0000 }"
        (ThemeCss.cssLines
           (ThemeCss.mkRawTheme "mono" [] None)
           keyword_theme
           [None; Some "#000000"; Some "#ff0000"]).
Proof.
  exact (themed_classes_have_rules
           (ThemeCss.mkRawTheme "mono" [] None)
           keyword_theme
           [None; Some "#000000"; Some "#ff0000"]
           (Highlighter.mkRule 1 2)
           "#ff0000" ltac:(cbn; lia) eq_refl).
Defined.

Lemma pushed_if_In (value : option string) (line l : string) :
  In l (ThemeCss.pushed_if value line) -> l = line.
Proof.
  unfold ThemeCss.pushed_if. destruct (ThemeCss.present value); cbn; intuition.
Qed.

Ltac line_cases H :=
  repeat (apply in_app_or in H; destruct H as [H|H]);
  try (apply pushed_if_In in H);
  try (destruct H as [H|[]]);
  try contradiction;
  subst.

Lemma cssLines_prefixed :
  forall (rawTheme : ThemeCss.ITextmateThemePlus) (theme : Highlighter.Theme)
         (colorMap : ThemeCss.ColorMap) (line : string),
    In line (ThemeCss.cssLines rawTheme theme colorMap) ->
    line = ""
    \/ line = "}"
    \/ String.prefix ThemeCss.tab line = true
    \/ String.prefix (".cm-s-" ++ ThemeCss.name rawTheme) line = true.
Proof.
  intros rawTheme theme colorMap line Hin.
  unfold ThemeCss.cssLines in Hin. cbn [List.concat] in Hin.
  rewrite app_nil_r in Hin.
  apply in_app_or in Hin. destruct Hin as [Hin|Hin].
  { destruct (match find ThemeCss.scopeless (ThemeCss.settings rawTheme) with
              | Some rule => ThemeCss.settings_of rule
              | None => None
              end) as [g|]; [|contradiction].
    unfold ThemeCss.general_lines in Hin. cbn [List.concat] in Hin.
    rewrite app_nil_r in Hin.
    line_cases Hin; auto using prefix_append. }
  apply in_app_or in Hin. destruct Hin as [Hin|Hin].
  { destruct (ThemeCss.gutterSettings rawTheme) as [g|]; [|contradiction].
    unfold ThemeCss.gutter_lines in Hin. cbn [List.concat] in Hin.
    rewrite app_nil_r in Hin.
    line_cases Hin; auto using prefix_append. }
  apply in_app_or in Hin. destruct Hin as [Hin|Hin].
  { unfold ThemeCss.category_lines in Hin. apply in_flat_map in Hin.
    destruct Hin as ([token [representative|]] & _ & Hin);
      cbn [fst snd] in Hin; [|contradiction].
    destruct (Highlighter.foreground
                (fst (Highlighter.theme_match theme representative)) =? 0)%Z;
      [contradiction|].
    destruct Hin as [<-|[]]. right; right; right. apply prefix_append. }
  destruct (table_lines_scoped _ _ _ _ Hin) as [->|H]; auto.
Qed.

(** ** The lines of the joined text *)

Lemma single_line_app (a b : string) :
  single_line (a ++ b)%string = single_line a && single_line b.
Proof.
  induction a as [|c r IH]; cbn [append single_line]; [reflexivity|].
  now rewrite IH, andb_assoc.
Qed.

Lemma lines_of_single (s : string) :
  single_line s = true -> lines_of s = [s].
Proof.
  induction s as [|c r IH]; cbn [single_line lines_of]; [reflexivity|].
  intros H. apply andb_prop in H. destruct H as [Hc Hr].
  apply negb_true_iff in Hc. rewrite Hc, (IH Hr). reflexivity.
Qed.

Lemma lines_of_break (a b : string) :
  single_line a = true ->
  lines_of (a ++ ThemeCss.newline ++ b)%string = a :: lines_of b.
Proof.
  induction a as [|c r IH]; cbn [single_line append lines_of].
  - intros _. reflexivity.
  - intros H. apply andb_prop in H. destruct H as [Hc Hr].
    apply negb_true_iff in Hc. rewrite Hc, (IH Hr). reflexivity.
Qed.

Lemma lines_of_concat (lines : list string) :
  Forall (fun line => single_line line = true) lines ->
  lines <> [] ->
  lines_of (String.concat ThemeCss.newline lines) = lines.
Proof.
  induction lines as [|x [|y r] IH]; intros Hall Hne; [contradiction| |].
  - cbn [String.concat]. apply lines_of_single. now inversion Hall.
  - change (String.concat ThemeCss.newline (x :: y :: r))
      with (x ++ ThemeCss.newline
              ++ String.concat ThemeCss.newline (y :: r))%string.
    inversion Hall as [|? ? Hx Hrest]; subst.
    rewrite (lines_of_break _ _ Hx), IH; [reflexivity | exact Hrest |].
    discriminate.
Qed.

Lemma string_of_uint_single (d : Decimal.uint) :
  single_line (NilEmpty.string_of_uint d) = true.
Proof.
  induction d as [|d IH|d IH|d IH|d IH|d IH|d IH|d IH|d IH|d IH|d IH];
    cbn [NilEmpty.string_of_uint single_line]; [reflexivity|..]; exact IH.
Qed.

Lemma string_of_uint0_single (d : Decimal.uint) :
  single_line (NilZero.string_of_uint d) = true.
Proof.
  destruct d; try reflexivity; apply string_of_uint_single.
Qed.

Lemma number_toString_single (z : Z) :
  single_line (Highlighter.number_toString z) = true.
Proof.
  unfold Highlighter.number_toString, NilZero.string_of_int.
  destruct (Z.to_int z); [apply string_of_uint0_single|].
  cbn [single_line]. apply string_of_uint0_single.
Qed.

Lemma CmToken_value_single (token : TmToCm.CmToken) :
  single_line (TmToCm.CmToken_value token) = true.
Proof. destruct token; reflexivity. Qed.

Lemma shown_single (value : option string) :
  opt_single_line value = true -> single_line (ThemeCss.shown value) = true.
Proof. destruct value; [exact (fun H => H) | reflexivity]. Qed.

Lemma color_at_single (colorMap : ThemeCss.ColorMap) (colorId : Z) :
  forallb opt_single_line colorMap = true ->
  single_line (ThemeCss.color_at colorMap colorId) = true.
Proof.
  intros Hall. unfold ThemeCss.color_at, Highlighter.js_index.
  destruct (colorId <? 0)%Z; [reflexivity|].
  destruct (nth_error colorMap (Z.to_nat colorId)) as [[color|]|] eqn:E;
    try reflexivity.
  apply nth_error_In in E. rewrite forallb_forall in Hall.
  exact (Hall _ E).
Qed.

Lemma table_lines_single (prefix : string) (colorMap : ThemeCss.ColorMap) :
  single_line prefix = true ->
  forallb opt_single_line colorMap = true ->
  forall i : nat,
    Forall (fun line => single_line line = true)
      (ThemeCss.table_lines prefix i colorMap).
Proof.
  intros Hp. induction colorMap as [|[color|] r IH];
    cbn [forallb ThemeCss.table_lines opt_single_line]; intros Hall i.
  - constructor.
  - apply andb_prop in Hall. destruct Hall as [Hc Hr].
    constructor; [|now apply IH].
    rewrite !single_line_app, Hp, Hc, number_toString_single. reflexivity.
  - constructor; [reflexivity | now apply IH].
Qed.

Ltac single_line_parts :=
  rewrite ?single_line_app;
  repeat match goal with
         | H : ?x = true |- context [?x] => rewrite H
         end;
  rewrite ?shown_single by assumption;
  reflexivity.

Lemma cssLines_single :
  forall (rawTheme : ThemeCss.ITextmateThemePlus) (theme : Highlighter.Theme)
         (colorMap : ThemeCss.ColorMap),
    theme_single_line rawTheme colorMap = true ->
    Forall (fun line => single_line line = true)
      (ThemeCss.cssLines rawTheme theme colorMap).
Proof.
  intros rawTheme theme colorMap H.
  unfold theme_single_line, general_settings in H.
  apply andb_prop in H. destruct H as [H Hmap].
  apply andb_prop in H. destruct H as [H Hgutter].
  apply andb_prop in H. destruct H as [Hname Hgeneral].
  assert (Hp : single_line (".cm-s-" ++ ThemeCss.name rawTheme) = true).
  { rewrite single_line_app, Hname. reflexivity. }
  unfold ThemeCss.cssLines. cbn [List.concat]. rewrite app_nil_r.
  set (prefix := (".cm-s-" ++ ThemeCss.name rawTheme)%string) in *.
  apply Forall_app. split; [|apply Forall_app; split;
                             [|apply Forall_app; split]].
  - destruct (match find ThemeCss.scopeless (ThemeCss.settings rawTheme) with
              | Some rule => ThemeCss.settings_of rule
              | None => None
              end) as [g|]; [|constructor].
    repeat (apply andb_prop in Hgeneral;
            let H := fresh "Hv" in destruct Hgeneral as [Hgeneral H]).
    apply Forall_forall. intros line Hin.
    unfold ThemeCss.general_lines in Hin. cbn [List.concat] in Hin.
    rewrite app_nil_r in Hin.
    line_cases Hin; single_line_parts.
  - destruct (ThemeCss.gutterSettings rawTheme) as [g|]; [|constructor].
    repeat (apply andb_prop in Hgutter;
            let H := fresh "Hv" in destruct Hgutter as [Hgutter H]).
    apply Forall_forall. intros line Hin.
    unfold ThemeCss.gutter_lines in Hin. cbn [List.concat] in Hin.
    rewrite app_nil_r in Hin.
    line_cases Hin; single_line_parts.
  - apply Forall_forall. intros line Hin.
    unfold ThemeCss.category_lines in Hin. apply in_flat_map in Hin.
    destruct Hin as ([token [representative|]] & _ & Hin);
      cbn [fst snd] in Hin; [|contradiction].
    destruct (Highlighter.foreground
                (fst (Highlighter.theme_match theme representative)) =? 0)%Z;
      [contradiction|].
    destruct Hin as [<-|[]].
    rewrite !single_line_app, Hp, CmToken_value_single,
      (color_at_single _ _ Hmap).
    reflexivity.
  - now apply table_lines_single.
Qed.

(** X16. The lines of a theme's stylesheet carry the theme's prefix.
    Provided no string the text is put together from holds a newline -- the
    theme's name, the values of its general and gutter settings, the colours
    of the engine's table -- the lines of the text [cssTextFromTmTheme]
    returns are the strings it pushed, one line each, and every line is
    empty, closes a block, is a declaration inside a block (it starts with
    a tab), or starts with the theme's own prefix [.cm-s-<name>].  Name and
    values are not checked by the code, and with a newline in one of them
    a line without the prefix can appear. *)
Theorem stylesheet_lines_carry_prefix :
  forall (rawTheme : ThemeCss.ITextmateThemePlus) (theme : Highlighter.Theme)
         (colorMap : ThemeCss.ColorMap),
    theme_single_line rawTheme colorMap = true ->
    let text := ThemeCss.cssTextFromTmTheme rawTheme theme colorMap in
    lines_of text
    = match ThemeCss.cssLines rawTheme theme colorMap with
      | [] => [""]
      | pushed => pushed
      end
    /\ forall line : string,
         In line (lines_of text) ->
         line = ""
         \/ line = "}"
         \/ String.prefix ThemeCss.tab line = true
         \/ String.prefix (".cm-s-" ++ ThemeCss.name rawTheme) line = true.
Proof.
  intros rawTheme theme colorMap Hsingle. cbv zeta.
  pose proof (cssLines_single rawTheme theme colorMap Hsingle) as Hall.
  pose proof (cssLines_prefixed rawTheme theme colorMap) as Hprefixed.
  unfold ThemeCss.cssTextFromTmTheme.
  destruct (ThemeCss.cssLines rawTheme theme colorMap) as [|first rest].
  - cbn [String.concat lines_of]. split; [reflexivity|].
    intros line [<-|[]]. now left.
  - rewrite (lines_of_concat (first :: rest) Hall ltac:(discriminate)).
    split; [reflexivity | exact Hprefixed].
Qed.

Lemma stylesheet_lines_carry_prefix_witness :
  lines_of (ThemeCss.cssTextFromTmTheme mono_theme keyword_theme mono_colors)
  = [ ".cm-s-mono.CodeMirror {";
      String (Ascii.ascii_of_nat 9) "background: #ffffff;";
      String (Ascii.ascii_of_nat 9) "color: #000000;";
      "}";
      ".cm-s-mono .cm-keyword { color: #ff0000 }";
      ".cm-s-mono .cm-operator { color: #ff0000 }";
      "";
      ".cm-s-mono .cm-tm-1 { color: #000000 }";
      ".cm-s-mono .cm-tm-2 { color: #111111 }";
      ".cm-s-mono .cm-tm-3 { color: #222222 }";
      ".cm-s-mono .cm-tm-4 { color: #333333 }";
      ".cm-s-mono .cm-tm-5 { color: #ff0000 }" ].
Proof.
  exact (proj1 (stylesheet_lines_carry_prefix mono_theme keyword_theme
                  mono_colors eq_refl)).
Defined.

(** The proviso of X16 is needed: a colour value holding a newline puts a
    line of its own into the text, and nothing makes it start with the
    prefix. *)
Example newline_in_value_escapes_prefix :
  In "body { display: none }"
     (lines_of
        (ThemeCss.cssTextFromTmTheme (ThemeCss.mkRawTheme "mono" [] None)
           keyword_theme
           [None;
            Some ("#000000 }" ++ ThemeCss.newline
                  ++ "body { display: none }" ++ ThemeCss.newline
                  ++ ".x {")%string])).
Proof. vm_compute. do 4 right. left. reflexivity. Qed.

(** X17. Classic and themed class names agree on the colour.  For a
    category of classic CodeMirror tokens whose representative scope the
    theme gives a positive foreground index holding a colour, the
    stylesheet gives that colour both to the classic class
    [cm-<category>] and to the class [cm-tm-<index>] the themed
    highlighter produces for the representative scope. *)
Theorem classic_and_themed_agree :
  forall (rawTheme : ThemeCss.ITextmateThemePlus) (theme : Highlighter.Theme)
         (colorMap : ThemeCss.ColorMap) (token : TmToCm.CmToken)
         (representative color : string),
    In (token, Some representative) ThemeCss.categories ->
    let rule := fst (Highlighter.theme_match theme representative) in
    (0 < Highlighter.foreground rule)%Z ->
    Highlighter.js_index colorMap (Highlighter.foreground rule)
      = Some (Some color) ->
    themed_token theme representative = Some (Highlighter.theme_class rule)
    /\ In (".cm-s-" ++ ThemeCss.name rawTheme ++ " .cm-"
           ++ TmToCm.CmToken_value token
           ++ " { color: " ++ color ++ " }")%string
          (ThemeCss.cssLines rawTheme theme colorMap)
    /\ In (".cm-s-" ++ ThemeCss.name rawTheme ++ " .cm-tm-"
           ++ Highlighter.number_toString (Highlighter.foreground rule)
           ++ " { color: " ++ color ++ " }")%string
          (ThemeCss.cssLines rawTheme theme colorMap).
Proof.
  intros rawTheme theme colorMap token representative color Hcat rule
    Hpos Hcolor.
  split; [|split].
  - unfold themed_token. fold rule.
    destruct (Z.ltb_spec 0 (Highlighter.foreground rule)); [reflexivity|lia].
  - unfold ThemeCss.cssLines. apply in_concat.
    eexists. split; [right; right; left; reflexivity|].
    unfold ThemeCss.category_lines. apply in_flat_map.
    exists (token, Some representative). split; [exact Hcat|].
    cbn [fst snd]. fold rule.
    destruct (Z.eqb_spec (Highlighter.foreground rule) 0) as [E|_]; [lia|].
    unfold ThemeCss.color_at. rewrite Hcolor. left. reflexivity.
  - unfold Highlighter.js_index in Hcolor.
    destruct (Z.ltb_spec (Highlighter.foreground rule) 0) as [Hneg|_];
      [lia|].
    pose proof (table_lines_In (".cm-s-" ++ ThemeCss.name rawTheme)%string
                  colorMap 0 _ color Hcolor) as Hin.
    cbn [Nat.add] in Hin. rewrite Z2Nat.id in Hin by lia.
    unfold ThemeCss.cssLines. apply in_concat.
    eexists. split; [right; right; right; left; reflexivity|].
    exact Hin.
Qed.

Lemma classic_and_themed_agree_witness :
  themed_token keyword_theme "keyword" = Some "tm-5 em"
  /\ In ".cm-s-mono .cm-keyword { color: #ff0000 }"
        (ThemeCss.cssLines (ThemeCss.mkRawTheme "mono" [] None) keyword_theme
           [None; Some "#000000"; Some "#111111"; Some "#222222";
            Some "#333333"; Some "#ff0000"])
  /\ In ".cm-s-mono .cm-tm-5 { color: #ff0000 }"
        (ThemeCss.cssLines (ThemeCss.mkRawTheme "mono" [] None) keyword_theme
           [None; Some "#000000"; Some "#111111"; Some "#222222";
            Some "#333333"; Some "#ff0000"]).
Proof.
  exact (classic_and_themed_agree
           (ThemeCss.mkRawTheme "mono" [] None) keyword_theme
           [None; Some "#000000"; Some "#111111"; Some "#222222";
            Some "#333333"; Some "#ff0000"]
           TmToCm.Keyword "keyword" "#ff0000"
           ltac:(cbn; tauto) ltac:(cbn; lia) eq_refl).
Defined.

(** * The exported [unlinkInjections] *)

Lemma with_statics_same (w : Index.World) :
  Index.with_statics (Index.statics w) w = w.
Proof. now destruct w. Qed.

(** X18. The exported [unlinkInjections] does nothing for a scope that is
    not itself a host: whatever the second argument is, even one that is
    no array, the promise fulfils with [undefined], no language is
    un-baked and the statics, engine instance included, stay as they
    were -- also when other hosts do carry the scope. *)
Theorem exported_unlink_of_non_host :
  forall (loadGrammar : Highlighter.Statics -> string -> Outcome (option IGrammar))
         (w : Index.World) (scopeName : string) (unInjectFrom : JsValue),
    JsMap.has (Highlighter.scopeNameToInjections (Index.statics w)) scopeName
      = false ->
    Index.unlinkInjections loadGrammar scopeName unInjectFrom w
    = (Settles (Fulfilled None), w).
Proof.
  intros loadGrammar w scopeName unInjectFrom Hguard.
  unfold Index.unlinkInjections, Highlighter.unlinkInjections.
  rewrite Hguard. cbn [negb Index.updateCmTmBindings_invalidate].
  now rewrite with_statics_same.
Qed.

Lemma exported_unlink_of_non_host_witness :
  hosted (Highlighter.scopeNameToInjections (Index.statics
            (snd (Index.linkInjections ready_engine "styled"
                    (JArray [JString "source.js"]) baked_world))))
         "source.js" = ["styled"]
  /\ Index.unlinkInjections ready_engine "styled" (JString "source.js")
       (snd (Index.linkInjections ready_engine "styled"
               (JArray [JString "source.js"]) baked_world))
     = (Settles (Fulfilled None),
        snd (Index.linkInjections ready_engine "styled"
               (JArray [JString "source.js"]) baked_world)).
Proof.
  split; [vm_compute; reflexivity|].
  apply exported_unlink_of_non_host. vm_compute. reflexivity.
Defined.



